(** * Dependency analyzer: a shallow embedding of [dependency_analyzer.py]

    The development follows the Python module top to bottom: the two
    dataclasses, the ast-grep driver, the classifier, the per-language
    extractors, [analyze_file], the directory walk, the depth-first cycle
    search, the text report and [main].

    Conventions.
    - A [pathlib.Path] is represented by its string form [str(p)].
    - A Python [dict] is an association list in insertion order (the order
      in which Python iterates it); a Python [set] that the code iterates
      is a duplicate-free list in its iteration order, a set that is only
      tested for membership is a [gset].
    - Python integers are [Z].
    - What [json.loads] returns is a value of [Json], of any shape; the
      operations the extractors apply to it raise as Python's do.
    - A function that can raise returns a [result]. The fuel of the
      recursive search is the number of nested calls allowed:
      [find_circular_dependencies] gives it one more than the graph has
      identifiers, which is proved to be enough, and
      [find_circular_dependencies_within] gives it the room the interpreter
      has left and raises [RecursionError] past it. *)

From Stdlib Require Import ZArith Ascii String.
From stdpp Require Import base option list sorting relations gmap strings pretty.

Local Open Scope string_scope.
Local Open Scope list_scope.
Local Open Scope Z_scope.

#[local] Set Warnings "-clear-no-such-hyp".

(** ** Python strings *)

(** [s.startswith(pre)] *)
Definition startswith (s pre : string) : bool := String.prefix pre s.

(** [c * n] for a one-character string [c] *)
Fixpoint str_repeat (c : ascii) (n : nat) : string :=
  match n with
  | O => ""
  | S n' => String c (str_repeat c n')
  end.

(** [sep.join(lines)] *)
Fixpoint str_join (sep : string) (lines : list string) : string :=
  match lines with
  | [] => ""
  | [l] => l
  | l :: rest => l +:+ sep +:+ str_join sep rest
  end.

(** [s.rfind(c)], [None] standing for Python's [-1] *)
Fixpoint rfind (c : ascii) (s : string) : option nat :=
  match s with
  | EmptyString => None
  | String a rest =>
      match rfind c rest with
      | Some i => Some (S i)
      | None => if Ascii.eqb a c then Some O else None
      end
  end.

(** The characters [str.strip()] removes, within ASCII. *)
Definition is_space (c : ascii) : bool :=
  let n := nat_of_ascii c in
  ((9 <=? n)%nat && (n <=? 13)%nat) || ((28 <=? n)%nat && (n <=? 32)%nat).

(** Truth value of [s.strip()]: some character is not whitespace. *)
Fixpoint strip_nonempty (s : string) : bool :=
  match s with
  | EmptyString => false
  | String c rest => negb (is_space c) || strip_nonempty rest
  end.

(** ** pathlib *)

(** [Path(p).name]: the component after the last separator. *)
Fixpoint name_from (acc s : string) : string :=
  match s with
  | EmptyString => acc
  | String c rest =>
      if Ascii.eqb c "/" then name_from "" rest
      else name_from (acc +:+ String c "") rest
  end.

Definition name (p : string) : string := name_from "" p.

(** [Path(p).suffix]: [name[i:]] for [i = name.rfind('.')] when
    [0 < i < len(name) - 1], the empty string otherwise. *)
Definition suffix (p : string) : string :=
  let n := name p in
  match rfind "." n with
  | Some i =>
      if ((0 <? i)%nat && (i <? String.length n - 1)%nat)%bool
      then String.substring i (String.length n - i) n
      else ""
  | None => ""
  end.

(** ** Errors *)

Inductive exn : Set :=
| AttributeError
| TypeError
| ValueError
| KeyError
| RecursionError.

Inductive result (A : Type) : Type :=
| Ok (a : A)
| Raise (e : exn).
Arguments Ok {A} a.
Arguments Raise {A} e.

#[global] Instance result_ret : MRet result := fun A a => Ok a.

#[global] Instance result_bind : MBind result := fun A B k r =>
  match r with
  | Ok a => k a
  | Raise e => Raise e
  end.

(** ** Decoded JSON *)

(** What [json.loads] returns: [None], a [bool], an [int], a [float] (given
    by its [repr]), a [str], a [list] (with the text [str()] gives for it,
    Python's [repr] of a list not being modelled) or a [dict] (its items in
    order, each key once). *)
#[local] Set Warnings "-register-all".
Inductive Json : Set :=
| JNull
| JBool (b : bool)
| JInt (n : Z)
| JFloat (repr : string)
| JStr (s : string)
| JList (items : list Json) (repr : string)
| JDict (fields : list (string * Json)).
#[local] Set Warnings "register-all".

(** [{}], [0] and [[]] *)
Definition empty_dict : Json := JDict [].
Definition zero : Json := JInt 0.
Definition empty_list : Json := JList [] "[]".

(** The value stored under a key of a [dict]. *)
Fixpoint lookup_key (k : string) (fields : list (string * Json)) : option Json :=
  match fields with
  | [] => None
  | (k', v) :: rest => if decide (k = k') then Some v else lookup_key k rest
  end.

(** [needle in hay] for two strings *)
Fixpoint contains (needle hay : string) : bool :=
  String.prefix needle hay ||
  match hay with
  | EmptyString => false
  | String _ rest => contains needle rest
  end.

(** [v == k] for a string [k]: only an equal [str] is equal to it. *)
Definition equals_str (k : string) (v : Json) : bool :=
  match v with
  | JStr s => bool_decide (s = k)
  | _ => false
  end.

(** [v.get(k, default)]: only a [dict] has the method. *)
Definition py_get (v : Json) (k : string) (default : Json) : result Json :=
  match v with
  | JDict fields =>
      Ok (match lookup_key k fields with Some x => x | None => default end)
  | _ => Raise AttributeError
  end.

(** [k in v] for a string [k]: a key of a [dict], an element of a [list],
    a part of a [str]; anything else is not iterable. *)
Definition py_in (k : string) (v : Json) : result bool :=
  match v with
  | JDict fields => Ok (bool_decide (is_Some (lookup_key k fields)))
  | JList items _ => Ok (existsb (equals_str k) items)
  | JStr s => Ok (contains k s)
  | _ => Raise TypeError
  end.

(** [v[k]] for a string [k]: only a [dict] is indexed by a string. *)
Definition py_index (v : Json) (k : string) : result Json :=
  match v with
  | JDict fields =>
      match lookup_key k fields with
      | Some x => Ok x
      | None => Raise KeyError
      end
  | _ => Raise TypeError
  end.

(** The characters of a string, each a string. Python iterates code
    points and this list has one element per byte; every element is a
    [str] either way. *)
Fixpoint characters (s : string) : list Json :=
  match s with
  | EmptyString => []
  | String c rest => JStr (String c EmptyString) :: characters rest
  end.

(** [for x in v]: the elements of a [list], the keys of a [dict], the
    characters of a [str]; anything else is not iterable. *)
Definition py_iter (v : Json) : result (list Json) :=
  match v with
  | JList items _ => Ok items
  | JDict fields => Ok (JStr <$> fields.*1)
  | JStr s => Ok (characters s)
  | _ => Raise TypeError
  end.

(** ** The dataclasses *)

Inductive ImportType : Set := static | dynamic | require | type_only.

Definition import_type_str (t : ImportType) : string :=
  match t with
  | static => "static"
  | dynamic => "dynamic"
  | require => "require"
  | type_only => "type_only"
  end.

#[global] Instance ImportType_eq_dec : EqDecision ImportType.
Proof. solve_decision. Defined.

Record DependencyInfo : Set := {
  package : string;
  import_type : ImportType;
  file_path : string;
  line_number : Json;
  is_external : bool
}.

Record DependencyReport : Type := {
  total_dependencies : Z;
  external_dependencies : Z;
  internal_dependencies : Z;
  dependencies_by_file : list (string * list DependencyInfo);
  dependency_graph : list (string * list string);
  circular_dependencies : list (list string);
  unused_dependencies : gset string
}.

(** [DependencyReport()] *)
Definition new_report : DependencyReport := {|
  total_dependencies := 0;
  external_dependencies := 0;
  internal_dependencies := 0;
  dependencies_by_file := [];
  dependency_graph := [];
  circular_dependencies := [];
  unused_dependencies := ∅
|}.

(** ** The classifier *)

(** [self.external_indicators] *)
Definition external_indicators : list string :=
  ["@"; "react"; "vue"; "angular"; "express"; "next";
   "lodash"; "axios"; "moment"; "dayjs"].

(** [_is_external_package] *)
Definition _is_external_package (package : string) : bool :=
  if startswith package "." then false
  else existsb (fun indicator => startswith package indicator) external_indicators.

(** ** The ast-grep driver *)

(** What [subprocess.run] can do: return a completed process, raise
    [TimeoutExpired] once the timeout has elapsed, or raise another
    exception (the tool is not installed, the file cannot be read). *)
Inductive ProcessOutcome : Set :=
| CompletedProcess (returncode : Z) (stdout : string)
| TimeoutExpired
| OtherException.

(** The operating system as one call of [analyze_file] sees it: the outcome
    of running a command line under a timeout given in seconds. *)
Definition System : Type := list string -> Z -> ProcessOutcome.

(** The timeout passed to every [subprocess.run]. *)
Definition astgrep_timeout : Z := 30.

(** The command line of [_run_astgrep]. *)
Definition astgrep_command (file_path pattern language : string) : list string :=
  ["ast-grep"; "run"; "-p"; pattern; "--lang"; language; "--json"; file_path].

(** The quotation mark, for the patterns that contain one. *)
Definition dq : string := String (ascii_of_nat 34) EmptyString.

Section Analyzer.

(** [json.loads] on the tool's standard output: [None] stands for
    [JSONDecodeError]. *)
Variable json_loads : string -> option Json.

(** [_run_astgrep]: what it returns is whatever the output decodes to. *)
Definition _run_astgrep (sys : System) (file_path pattern language : string)
  : Json :=
  match sys (astgrep_command file_path pattern language) astgrep_timeout with
  | CompletedProcess returncode stdout =>
      if (returncode =? 0) && strip_nonempty stdout then
        match json_loads stdout with
        | Some matches => matches
        | None => empty_list
        end
      else empty_list
  | TimeoutExpired => empty_list
  | OtherException => empty_list
  end.

(** The two ast-grep formats: [meta['single']['PACKAGE']] when
    ['single' in meta and 'PACKAGE' in meta['single']], else
    [meta['PACKAGE']] when ['PACKAGE' in meta]; [None] is the [continue]
    branch. *)
Definition package_node (meta : Json) : result (option Json) :=
  has_single ← py_in "single" meta;
  in_single ← (if has_single : bool then
                 single ← py_index meta "single"; py_in "PACKAGE" single
               else Ok false);
  if in_single : bool then
    single ← py_index meta "single";
    node ← py_index single "PACKAGE";
    Ok (Some node)
  else
    at_top ← py_in "PACKAGE" meta;
    if at_top : bool then node ← py_index meta "PACKAGE"; Ok (Some node)
    else Ok None.

(** [package_node.get('text') if isinstance(package_node, dict) else
    str(package_node)] *)
Definition package_of_node (node : Json) : Json :=
  match node with
  | JDict fields =>
      match lookup_key "text" fields with Some text => text | None => JNull end
  | JNull => JStr "None"
  | JBool b => JStr (if b then "True" else "False")
  | JInt n => JStr (pretty n)
  | JFloat repr => JStr repr
  | JStr s => JStr s
  | JList _ repr => JStr repr
  end.

(** [match.get('range', {}).get('start', {}).get('line', 0)] *)
Definition start_line (m : Json) : result Json :=
  range ← py_get m "range" empty_dict;
  start ← py_get range "start" empty_dict;
  py_get start "line" zero.

(** The body of the loop over the matches of one pattern, the same in all
    five places it is written: skip the match, or build its record.
    Classifying a package that is no [str] calls [startswith] on it. *)
Definition record_of_match (path : string) (kind : ImportType) (m : Json)
  : result (option DependencyInfo) :=
  meta ← py_get m "metaVariables" empty_dict;
  node ← package_node meta;
  match node with
  | None => Ok None
  | Some node =>
      line_num ← start_line m;
      match package_of_node node with
      | JStr pkg =>
          Ok (Some {| package := pkg;
                      import_type := kind;
                      file_path := path;
                      line_number := line_num;
                      is_external := _is_external_package pkg |})
      | _ => Raise AttributeError
      end
  end.

(** [for match in matches: ... dependencies.append(dep)] *)
Fixpoint records_of_matches (path : string) (kind : ImportType)
    (matches : list Json) (dependencies : list DependencyInfo)
  : result (list DependencyInfo) :=
  match matches with
  | [] => Ok dependencies
  | m :: rest =>
      d ← record_of_match path kind m;
      records_of_matches path kind rest
        (match d with Some dep => dependencies ++ [dep] | None => dependencies end)
  end.

(** [for pattern in patterns: matches = self._run_astgrep(...);
    for match in matches: ...] *)
Fixpoint records_of_patterns (sys : System) (path language : string)
    (kind : ImportType) (patterns : list string)
    (dependencies : list DependencyInfo) : result (list DependencyInfo) :=
  match patterns with
  | [] => Ok dependencies
  | pattern :: rest =>
      matches ← py_iter (_run_astgrep sys path pattern language);
      dependencies' ← records_of_matches path kind matches dependencies;
      records_of_patterns sys path language kind rest dependencies'
  end.

Definition python_patterns : list string :=
  ["import $PACKAGE"; "from $PACKAGE import $$$"; "import $PACKAGE as $ALIAS"].

(** [analyze_python_imports] *)
Definition analyze_python_imports (sys : System) (path : string)
  : result (list DependencyInfo) :=
  records_of_patterns sys path "python" static python_patterns [].

Definition static_patterns : list string :=
  ["import $$ from " +:+ dq +:+ "$PACKAGE" +:+ dq;
   "import { $$ } from " +:+ dq +:+ "$PACKAGE" +:+ dq;
   "import * as $$ from " +:+ dq +:+ "$PACKAGE" +:+ dq;
   "import " +:+ dq +:+ "$PACKAGE" +:+ dq].

Definition dynamic_pattern : string :=
  "import(" +:+ dq +:+ "$PACKAGE" +:+ dq +:+ ")".

Definition require_pattern : string :=
  "require(" +:+ dq +:+ "$PACKAGE" +:+ dq +:+ ")".

Definition type_pattern : string :=
  "import type { $$ } from " +:+ dq +:+ "$PACKAGE" +:+ dq.

(** [analyze_typescript_imports] *)
Definition analyze_typescript_imports (sys : System) (path language : string)
  : result (list DependencyInfo) :=
  d1 ← records_of_patterns sys path language static static_patterns [];
  d2 ← records_of_patterns sys path language dynamic [dynamic_pattern] d1;
  d3 ← records_of_patterns sys path language require [require_pattern] d2;
  records_of_patterns sys path language type_only [type_pattern] d3.

(** ** The report accumulator *)

(** [d[k].append(v)] on a [defaultdict(list)] *)
Fixpoint dict_append {A} (k : string) (v : A) (d : list (string * list A))
  : list (string * list A) :=
  match d with
  | [] => [(k, [v])]
  | (k', vs) :: d' =>
      if decide (k = k') then (k', vs ++ [v]) :: d'
      else (k', vs) :: dict_append k v d'
  end.

(** [s.add(v)] on a set kept in iteration order *)
Definition set_add (v : string) (s : list string) : list string :=
  if decide (v ∈ s) then s else s ++ [v].

(** [d[k].add(v)] on a [defaultdict(set)] *)
Fixpoint dict_add (k v : string) (d : list (string * list string))
  : list (string * list string) :=
  match d with
  | [] => [(k, [v])]
  | (k', vs) :: d' =>
      if decide (k = k') then (k', set_add v vs) :: d'
      else (k', vs) :: dict_add k v d'
  end.

(** [d.get(k, default)] *)
Fixpoint dict_get {A} (k : string) (d : list (string * A)) (default : A) : A :=
  match d with
  | [] => default
  | (k', v) :: d' => if decide (k = k') then v else dict_get k d' default
  end.

(** The body of the loop [for dep in deps] of [analyze_file]. *)
Definition add_dependency (src_file : string) (report : DependencyReport)
    (dep : DependencyInfo) : DependencyReport :=
  {| total_dependencies := total_dependencies report + 1;
     external_dependencies :=
       if is_external dep then external_dependencies report + 1
       else external_dependencies report;
     internal_dependencies :=
       if is_external dep then internal_dependencies report
       else internal_dependencies report + 1;
     dependencies_by_file :=
       dict_append (file_path dep) dep (dependencies_by_file report);
     dependency_graph :=
       if negb (is_external dep)
       then dict_add src_file (package dep) (dependency_graph report)
       else dependency_graph report;
     circular_dependencies := circular_dependencies report;
     unused_dependencies := unused_dependencies report |}.

(** [analyze_file]: the report after the call and how the call ended. The
    records are extracted before the report is touched, so a call that
    raises leaves it as it was. *)
Definition analyze_file (sys : System) (path : string)
    (report : DependencyReport) : DependencyReport * result unit :=
  let extracted :=
    if decide (suffix path = ".py") then
      Some (analyze_python_imports sys path)
    else if decide (suffix path ∈ [".ts"; ".tsx"]) then
      Some (analyze_typescript_imports sys path "typescript")
    else if decide (suffix path ∈ [".js"; ".jsx"]) then
      Some (analyze_typescript_imports sys path "javascript")
    else None in
  match extracted with
  | None => (report, Ok ())
  | Some (Raise e) => (report, Raise e)
  | Some (Ok deps) => (foldl (add_dependency path) report deps, Ok ())
  end.

End Analyzer.

(** ** The cycle search *)

(** The three mutable objects the nested [dfs] works on: the [visited] and
    [rec_stack] sets it is passed, and [self.report.circular_dependencies]. *)
Record SearchState : Type := {
  visited : gset string;
  rec_stack : gset string;
  cycles : list (list string)
}.

(** [path.index(x)]; [None] stands for [ValueError]. *)
Fixpoint index (x : string) (path : list string) : option nat :=
  match path with
  | [] => None
  | y :: rest => if decide (x = y) then Some O else S <$> index x rest
  end.

(** [if cycle not in cds: cds.append(cycle)] *)
Definition add_cycle (cds : list (list string)) (cycle : list string)
  : list (list string) :=
  if decide (cycle ∈ cds) then cds else cds ++ [cycle].

(** The cycle list after the cycles of [found] were offered to it in turn. *)
Definition add_cycles (found cds : list (list string)) : list (list string) :=
  foldl add_cycle cds found.

(** The outcome of a search with fuel: [None] when the fuel ran out. The
    fuel of [dfs] is the number of nested calls of [dfs] still allowed: a
    call passes one less to the calls it makes and the same amount to each
    of them. *)
Definition Search : Type := option (result SearchState).

(** One iteration of [for neighbor in ...], [dfs] being the recursive call
    (which receives [path.copy()], here the immutable [path]). *)
Definition visit_neighbor (dfs : string -> list string -> SearchState -> Search)
    (path : list string) (neighbor : string) (st : SearchState) : Search :=
  if decide (neighbor ∉ visited st) then dfs neighbor path st
  else if decide (neighbor ∈ rec_stack st) then
    match index neighbor path with
    | None => Some (Raise ValueError)
    | Some cycle_start =>
        let cycle := drop cycle_start path ++ [neighbor] in
        Some (Ok {| visited := visited st;
                    rec_stack := rec_stack st;
                    cycles := add_cycle (cycles st) cycle |})
    end
  else Some (Ok st).

Fixpoint visit_neighbors (dfs : string -> list string -> SearchState -> Search)
    (path : list string) (neighbors : list string) (st : SearchState) : Search :=
  match neighbors with
  | [] => Some (Ok st)
  | neighbor :: rest =>
      match visit_neighbor dfs path neighbor st with
      | Some (Ok st') => visit_neighbors dfs path rest st'
      | stop => stop
      end
  end.

(** The nested function [dfs(node, path, visited, rec_stack)];
    [rec_stack.remove(node)] raises [KeyError] on a node that is not there. *)
Fixpoint dfs (graph : list (string * list string)) (fuel : nat)
    (node : string) (path : list string) (st : SearchState) : Search :=
  match fuel with
  | O => None
  | S fuel' =>
      let path' := path ++ [node] in
      let st' := {| visited := {[node]} ∪ visited st;
                    rec_stack := {[node]} ∪ rec_stack st;
                    cycles := cycles st |} in
      match visit_neighbors (dfs graph fuel') path' (dict_get node graph []) st' with
      | Some (Ok st'') =>
          if decide (node ∈ rec_stack st'') then
            Some (Ok {| visited := visited st'';
                        rec_stack := rec_stack st'' ∖ {[node]};
                        cycles := cycles st'' |})
          else Some (Raise KeyError)
      | stop => stop
      end
  end.

(** [for node in graph: if node not in visited: dfs(node, [], visited, set())]
    over the keys still to come; the recursion stack is a new set per root. *)
Fixpoint search_roots (graph : list (string * list string)) (fuel : nat)
    (roots : list string) (seen : gset string) (cds : list (list string))
  : option (result (gset string * list (list string))) :=
  match roots with
  | [] => Some (Ok (seen, cds))
  | node :: rest =>
      if decide (node ∉ seen) then
        match dfs graph fuel node []
                {| visited := seen; rec_stack := ∅; cycles := cds |} with
        | Some (Ok st) => search_roots graph fuel rest (visited st) (cycles st)
        | Some (Raise e) => Some (Raise e)
        | None => None
        end
      else search_roots graph fuel rest seen cds
  end.

(** Every identifier of the graph, as edge source or as edge target. *)
Definition graph_nodes (graph : list (string * list string)) : gset string :=
  list_to_set (graph ≫= fun '(k, vs) => k :: vs).

(** The search on a graph and a cycle list: the cycle list afterwards. The
    fuel is one more than the number of identifiers. *)
Definition find_cycles (graph : list (string * list string))
    (cds : list (list string)) : option (result (list (list string))) :=
  match search_roots graph (S (size (graph_nodes graph))) graph.*1 ∅ cds with
  | Some (Ok (_, cds')) => Some (Ok cds')
  | Some (Raise e) => Some (Raise e)
  | None => None
  end.

Definition set_circular_dependencies (report : DependencyReport)
    (cds : list (list string)) : DependencyReport :=
  {| total_dependencies := total_dependencies report;
     external_dependencies := external_dependencies report;
     internal_dependencies := internal_dependencies report;
     dependencies_by_file := dependencies_by_file report;
     dependency_graph := dependency_graph report;
     circular_dependencies := cds;
     unused_dependencies := unused_dependencies report |}.

(** [find_circular_dependencies]: the report after the call. *)
Definition find_circular_dependencies (report : DependencyReport)
  : option (result DependencyReport) :=
  match find_cycles (dependency_graph report) (circular_dependencies report) with
  | Some (Ok cds) => Some (Ok (set_circular_dependencies report cds))
  | Some (Raise e) => Some (Raise e)
  | None => None
  end.

(** [find_circular_dependencies] when the interpreter has room for [limit]
    nested calls of [dfs] and no more: a search that nests deeper raises
    [RecursionError]. *)
Definition find_circular_dependencies_within (limit : nat)
    (report : DependencyReport) : result DependencyReport :=
  match search_roots (dependency_graph report) limit
          (dependency_graph report).*1 ∅ (circular_dependencies report) with
  | Some (Ok (_, cds)) => Ok (set_circular_dependencies report cds)
  | Some (Raise e) => Raise e
  | None => Raise RecursionError
  end.

(** ** The directory walk *)

(** A file tree as [os.scandir] lists it: a regular file, or a directory
    with its entries in listing order. *)
#[local] Set Warnings "-register-all".
Inductive FsNode : Set :=
| File
| Directory (entries : list (string * FsNode)).
#[local] Set Warnings "register-all".

(** The file system: the tree found at a path, [None] when nothing is. *)
Definition FileSystem : Type := string -> option FsNode.

Definition default_skip_dirs : list string :=
  [".git"; "node_modules"; "__pycache__"; ".next"; "dist"; "build";
   "_site"; ".venv"; "venv"; "env"; ".cache"; "coverage"].

(** The filter of [dirs[:] = [d for d in dirs if ...]] *)
Definition keep_dir (skip_dirs : list string) (d : string) : bool :=
  bool_decide (d ∉ skip_dirs) && negb (startswith d ".").

(** [s.endswith('/')] *)
Definition ends_with_sep (s : string) : bool :=
  match String.get (String.length s - 1) s with
  | Some c => Ascii.eqb c "/"
  | None => false
  end.

(** [os.path.join(top, d)] for a relative [d] *)
Definition os_path_join (top d : string) : string :=
  if decide (top = "") then d
  else if ends_with_sep top then top +:+ d
  else top +:+ "/" +:+ d.

(** [Path(root)] drops a leading current-directory component. Roots are
    taken to carry no other redundancy (doubled separators, inner dots). *)
Fixpoint drop_cur_dir (fuel : nat) (root : string) : string :=
  match fuel with
  | O => root
  | S fuel' =>
      if decide (root = ".") then ""
      else if startswith root "./" then
        drop_cur_dir fuel' (String.substring 2 (String.length root - 2) root)
      else root
  end.

(** [str(Path(root) / file_name)] *)
Definition path_div (root file_name : string) : string :=
  os_path_join (drop_cur_dir (String.length root) root) file_name.

Definition dir_names (entries : list (string * FsNode)) : list string :=
  omap (fun '(n, node) => match node with Directory _ => Some n | File => None end)
       entries.

Definition file_names (entries : list (string * FsNode)) : list string :=
  omap (fun '(n, node) => match node with File => Some n | Directory _ => None end)
       entries.

(** [os.walk(top)], top down, when the caller prunes [dirs] with [keep]
    before the generator resumes: the triples [(root, dirs, files)] in the
    order they are yielded. A path that cannot be listed yields nothing
    (the default [onerror=None] ignores the error). *)
Fixpoint os_walk (keep : string -> bool) (top : string) (node : FsNode)
  : list (string * list string * list string) :=
  match node with
  | File => []
  | Directory entries =>
      (top, filter (fun d => keep d = true) (dir_names entries), file_names entries)
      :: (fix subdirs (es : list (string * FsNode)) :=
            match es with
            | [] => []
            | (d, File) :: rest => subdirs rest
            | (d, (Directory _) as sub) :: rest =>
                if keep d then os_walk keep (os_path_join top d) sub ++ subdirs rest
                else subdirs rest
            end) entries
  end.

Definition source_suffixes : list string := [".py"; ".ts"; ".tsx"; ".js"; ".jsx"].

Section Run.

Variable json_loads : string -> option Json.

(** [for file_name in files: ...] of [analyze_directory]: stops at the
    first call that raises. *)
Fixpoint analyze_files (sys : System) (root : string) (files : list string)
    (report : DependencyReport) : DependencyReport * result unit :=
  match files with
  | [] => (report, Ok ())
  | file_name :: rest =>
      let path := path_div root file_name in
      if decide (suffix path ∈ source_suffixes) then
        match analyze_file json_loads sys path report with
        | (report', Ok _) => analyze_files sys root rest report'
        | stop => stop
        end
      else analyze_files sys root rest report
  end.

Fixpoint analyze_walk (sys : System)
    (walk : list (string * list string * list string))
    (report : DependencyReport) : DependencyReport * result unit :=
  match walk with
  | [] => (report, Ok ())
  | (root, _, files) :: rest =>
      match analyze_files sys root files report with
      | (report', Ok _) => analyze_walk sys rest report'
      | stop => stop
      end
  end.

(** [analyze_directory(directory, skip_dirs)] *)
Definition analyze_directory (sys : System) (fs : FileSystem)
    (directory : string) (skip_dirs : list string)
    (report : DependencyReport) : DependencyReport * result unit :=
  match fs directory with
  | None => analyze_walk sys [] report
  | Some node => analyze_walk sys (os_walk (keep_dir skip_dirs) directory node) report
  end.

End Run.

(** ** The text report *)

(** [sorted(xs)] under the order [le]. Python's sort is stable, and a
    stable sort has one result, the one of insertion from the right. *)
Fixpoint insert_by {A} (le : A -> A -> bool) (x : A) (l : list A) : list A :=
  match l with
  | [] => [x]
  | y :: rest => if le x y then x :: l else y :: insert_by le x rest
  end.

Fixpoint sorted_by {A} (le : A -> A -> bool) (l : list A) : list A :=
  match l with
  | [] => []
  | x :: rest => insert_by le x (sorted_by le rest)
  end.

(** Every record of the report, file by file:
    [for deps in dependencies_by_file.values() for dep in deps]. *)
Definition all_records (report : DependencyReport) : list DependencyInfo :=
  concat (dependencies_by_file report).*2.

(** The set [external_packages], in the order its elements were added. *)
Definition external_packages (report : DependencyReport) : list string :=
  foldl (fun acc dep => if is_external dep then set_add (package dep) acc else acc)
        [] (all_records report).

(** [sum(1 for deps in ... for dep in deps if dep.package == package)] *)
Definition usage_count (report : DependencyReport) (pkg : string) : Z :=
  Z.of_nat (length (filter (fun dep => package dep = pkg) (all_records report))).

(** The packages of the external section with the count shown for each.
    Python orders strings by code point, which on UTF-8 bytes is the order
    of [String.leb]. *)
Definition external_usage (report : DependencyReport) : list (string * Z) :=
  (fun pkg => (pkg, usage_count report pkg))
    <$> sorted_by String.leb (external_packages report).

(** [by_type[k] += 1] on a [defaultdict(int)] *)
Fixpoint dict_incr (k : string) (d : list (string * Z)) : list (string * Z) :=
  match d with
  | [] => [(k, 1)]
  | (k', n) :: d' =>
      if decide (k = k') then (k', n + 1) :: d' else (k', n) :: dict_incr k d'
  end.

Definition by_type (report : DependencyReport) : list (string * Z) :=
  foldl (fun acc dep => dict_incr (import_type_str (import_type dep)) acc)
        [] (all_records report).

(** The order of [sorted(..., key=key, reverse=True)]: [x] may stand before
    [y] when its key is not the smaller one. *)
Definition by_key_reversed {A} (key : A -> nat) (x y : A) : bool :=
  (key y <=? key x)%nat.

(** [sorted(items, key=lambda x: len(x[1]), reverse=True)[:10]] *)
Definition top_files (report : DependencyReport)
  : list (string * list DependencyInfo) :=
  take 10 (sorted_by (by_key_reversed (fun x => length x.2))
                     (dependencies_by_file report)).

Definition rule : string := str_repeat "=" 80.

Definition cycle_lines (idx : nat) (cycle : list string) : list string :=
  ("  Cycle " +:+ pretty idx +:+ ":")
    :: ((fun file => "    → " +:+ file) <$> cycle) ++ [""].

(** [generate_report_text]: the lines, then their join. *)
Definition report_lines (root_dir : string) (report : DependencyReport)
  : list string :=
  [rule; "DEPENDENCY ANALYSIS REPORT"; rule; "";
   "Root Directory: " +:+ root_dir; "";
   rule; "SUMMARY"; rule; "";
   "Total Dependencies: " +:+ pretty (total_dependencies report);
   "External Dependencies: " +:+ pretty (external_dependencies report);
   "Internal Dependencies: " +:+ pretty (internal_dependencies report);
   "Files Analyzed: " +:+ pretty (length (dependencies_by_file report));
   ""]
  ++ (match external_packages report with
      | [] => []
      | pkgs =>
          [rule; "EXTERNAL PACKAGES (" +:+ pretty (length pkgs) +:+ ")"; rule; ""]
          ++ ((fun '(pkg, n) => "  📦 " +:+ pkg +:+ " (used " +:+ pretty n +:+ "x)")
                <$> external_usage report)
          ++ [""]
      end)
  ++ (match by_type report with
      | [] => []
      | counts =>
          [rule; "DEPENDENCIES BY IMPORT TYPE"; rule; ""]
          ++ ((fun '(k, n) => "  " +:+ k +:+ ": " +:+ pretty n)
                <$> sorted_by (fun x y => String.leb x.1 y.1) counts)
          ++ [""]
      end)
  ++ (match circular_dependencies report with
      | [] => []
      | cds =>
          [rule;
           "⚠️  CIRCULAR DEPENDENCIES DETECTED (" +:+ pretty (length cds) +:+ ")";
           rule; ""]
          ++ concat (imap (fun i cycle => cycle_lines (S i) cycle) cds)
      end)
  ++ (match top_files report with
      | [] => []
      | tops =>
          [rule; "TOP FILES BY DEPENDENCY COUNT"; rule; ""]
          ++ concat ((fun '(path, deps) =>
                        ["  📄 " +:+ path;
                         "     " +:+ pretty (length deps) +:+ " dependencies";
                         ""]) <$> tops)
      end)
  ++ [rule; "END OF REPORT"; rule].

Definition newline : string := String (ascii_of_nat 10) EmptyString.

Definition generate_report_text (root_dir : string) (report : DependencyReport)
  : string :=
  str_join newline (report_lines root_dir report).

(** ** The command line *)

Record Args : Set := {
  directory : string;
  json : option string;
  text : option string;
  detect_circular : bool
}.

(** What a run does to the outside: a [print], the text report written to
    a file, and [save_report_json] (the data it dumps is the root directory
    and the report). *)
Inductive Effect : Type :=
| Print (line : string)
| WriteText (path content : string)
| SaveJson (path root_dir : string) (report : DependencyReport).

(** How a run ends. The two writes are taken to succeed: a path that
    cannot be written to is outside this model. *)
Inductive Ending : Set :=
| Finished
| Raised (e : exn)
| OutOfFuel.

Section Main.

Variable json_loads : string -> option Json.

(** What [main] does once the report is final; [if args.json:] and
    [if args.text:] are false for [None] and for the empty string. *)
Definition report_effects (args : Args) (report : DependencyReport)
  : list Effect :=
  let text_report := generate_report_text (directory args) report in
  [Print text_report]
  ++ match json args with
     | Some path =>
         if decide (path = "") then []
         else [SaveJson path (directory args) report;
               Print ("✅ Dependency report saved to " +:+ path)]
     | None => []
     end
  ++ match text args with
     | Some path =>
         if decide (path = "") then []
         else [WriteText path text_report;
               Print (newline +:+ "✅ Text report saved to " +:+ path)]
     | None => []
     end.

(** What [main] prints before and after the walk. *)
Definition banner (args : Args) : list Effect :=
  [Print (newline +:+ rule); Print "Dependency Analyzer";
   Print (rule +:+ newline);
   Print ("Analyzing: " +:+ directory args +:+ newline)].

Definition detecting : list Effect :=
  [Print ("Detecting circular dependencies..." +:+ newline)].

(** [main], after the arguments are parsed. *)
Definition main (sys : System) (fs : FileSystem) (args : Args)
  : list Effect * Ending :=
  match analyze_directory json_loads sys fs (directory args)
          default_skip_dirs new_report with
  | (_, Raise e) => (banner args, Raised e)
  | (report, Ok _) =>
      if detect_circular args then
        match find_circular_dependencies report with
        | Some (Ok report') =>
            (banner args ++ detecting ++ report_effects args report', Finished)
        | Some (Raise e) => (banner args ++ detecting, Raised e)
        | None => (banner args ++ detecting, OutOfFuel)
        end
      else (banner args ++ report_effects args report, Finished)
  end.

End Main.

(** ** The specification's wording, for comparison with the code *)

(** The number of distinct files holding a record that references [pkg]. *)
Definition files_referencing (report : DependencyReport) (pkg : string) : Z :=
  Z.of_nat (length (filter (fun entry => Exists (fun dep => package dep = pkg) entry.2)
                           (dependencies_by_file report))).

(** Fan-out: the number of distinct outgoing edges of a file's node. *)
Definition fan_out (report : DependencyReport) (path : string) : nat :=
  length (dict_get path (dependency_graph report) []).


(** The report after a sequence of [analyze_file] calls, each with the
    system as it was during that call. *)
Definition analyze_sequence (json_loads : string -> option Json)
    (calls : list (System * string)) (report : DependencyReport)
  : DependencyReport :=
  foldl (fun r call => (analyze_file json_loads call.1 call.2 r).1) report calls.

(** ** The records a call processes *)

(** The records [analyze_file] hands to its loop [for dep in deps]: the
    ones the extractor of the file's language returns, and none when the
    call returns early or the extractor raises. *)
Definition records_of_call (json_loads : string -> option Json)
    (call : System * string) : list DependencyInfo :=
  let extracted :=
    if decide (suffix call.2 = ".py") then
      analyze_python_imports json_loads call.1 call.2
    else if decide (suffix call.2 ∈ [".ts"; ".tsx"]) then
      analyze_typescript_imports json_loads call.1 call.2 "typescript"
    else if decide (suffix call.2 ∈ [".js"; ".jsx"]) then
      analyze_typescript_imports json_loads call.1 call.2 "javascript"
    else Ok [] in
  match extracted with
  | Ok deps => deps
  | Raise _ => []
  end.

(** The stream of records a sequence of calls processes, in order. *)
Definition processed (json_loads : string -> option Json)
    (calls : list (System * string)) : list DependencyInfo :=
  calls ≫= records_of_call json_loads.

(** ** A tree without the directories the walk skips *)

(** The tree with every directory whose name [keep] refuses removed, at
    every depth, together with all it holds. *)
Fixpoint prune (keep : string -> bool) (node : FsNode) : FsNode :=
  match node with
  | File => File
  | Directory entries =>
      Directory
        ((fix go (es : list (string * FsNode)) : list (string * FsNode) :=
            match es with
            | [] => []
            | (n, File) :: rest => (n, File) :: go rest
            | (d, (Directory _) as sub) :: rest =>
                if keep d then (d, prune keep sub) :: go rest else go rest
            end) entries)
  end.

(** Every directory of the tree, at every depth, has a name [keep] accepts. *)
Fixpoint all_dirs_kept (keep : string -> bool) (node : FsNode) : Prop :=
  match node with
  | File => True
  | Directory entries =>
      (fix go (es : list (string * FsNode)) : Prop :=
         match es with
         | [] => True
         | (n, File) :: rest => go rest
         | (d, (Directory _) as sub) :: rest =>
             keep d = true /\ all_dirs_kept keep sub /\ go rest
         end) entries
  end.

(** What [prune] keeps of one entry of a directory. *)
Definition pruned_entry (keep : string -> bool) (e : string * FsNode)
  : list (string * FsNode) :=
  match e.2 with
  | File => [e]
  | Directory _ => if keep e.1 then [(e.1, prune keep e.2)] else []
  end.

(** The part of [os_walk] below one entry of the directory [top]. *)
Definition walk_below (keep : string -> bool) (top : string)
    (e : string * FsNode) : list (string * list string * list string) :=
  match e.2 with
  | File => []
  | Directory _ =>
      if keep e.1 then os_walk keep (os_path_join top e.1) e.2 else []
  end.

(** ** Invariants *)

(** What the extractors guarantee of every record they build for [path]. *)
Definition built_for (path : string) (dep : DependencyInfo) : Prop :=
  file_path dep = path /\ is_external dep = _is_external_package (package dep).

(** The two counting invariants of the report. *)
Definition counts_consistent (report : DependencyReport) : Prop :=
  total_dependencies report
    = external_dependencies report + internal_dependencies report
  /\ total_dependencies report = Z.of_nat (length (all_records report)).

(** Stored records sit under their own file and carry the classifier's
    verdict; the graph has exactly the edges of the internal ones. *)
Definition edges_match_records (report : DependencyReport) : Prop :=
  (forall k dep, dep ∈ dict_get k (dependencies_by_file report) [] -> built_for k dep)
  /\ (forall src target,
        target ∈ dict_get src (dependency_graph report) [] <->
        exists dep, dep ∈ dict_get src (dependencies_by_file report) []
                    /\ package dep = target /\ is_external dep = false).

(** What a call of the search does on an unvisited node of the graph, with
    enough fuel for the nodes not yet visited and a recursion stack that
    lies within the visited set and within the path: it returns, with the
    node visited, the recursion stack as it was, and the cycle list
    obtained by offering cycles that do not depend on that list. *)
Definition search_spec (graph : list (string * list string)) (fuel : nat)
    (rec : string -> list string -> SearchState -> Search) : Prop :=
  forall node path seen stack,
    node ∈ graph_nodes graph ->
    node ∉ seen ->
    stack ⊆ seen ->
    (forall x, x ∈ stack -> x ∈ path) ->
    (size (graph_nodes graph ∖ seen) < fuel)%nat ->
    exists seen' found,
      seen ⊆ seen' /\ node ∈ seen'
      /\ forall cds,
           rec node path {| visited := seen; rec_stack := stack; cycles := cds |}
           = Some (Ok {| visited := seen'; rec_stack := stack;
                         cycles := add_cycles found cds |}).

(** ** A concrete system for the examples *)

(** A match in the format with ['single'], for a package and a line. *)
Definition match_of (pkg : string) (line : Z) : Json :=
  JDict [("metaVariables",
          JDict [("single", JDict [("PACKAGE", JDict [("text", JStr pkg)])])]);
         ("range", JDict [("start", JDict [("line", JInt line)])])].

(** A decoder defined on three outputs, and failing on every other one. *)
Definition example_json_loads (stdout : string) : option Json :=
  if decide (stdout = "[react, react]") then
    Some (JList [match_of "react" 0; match_of "react" 1] "")
  else if decide (stdout = "[./utils]") then Some (JList [match_of "./utils" 0] "")
  else if decide (stdout = "[os]") then Some (JList [match_of "os" 0] "")
  else None.

(** A system where the first Python pattern matches in three files, the
    second one prints something that is not JSON and every other
    invocation times out. *)
Definition example_system : System := fun command _ =>
  match command with
  | [_; _; _; pattern; _; _; _; path] =>
      if decide (pattern = "import $PACKAGE") then
        if decide (path = "a.py") then CompletedProcess 0 "[react, react]"
        else if decide (path = "b.py") then CompletedProcess 0 "[./utils]"
        else if decide (path = "c.py") then CompletedProcess 0 "[os]"
        else CompletedProcess 1 ""
      else if decide (pattern = "from $PACKAGE import $$$") then
        CompletedProcess 0 "Error: not json"
      else TimeoutExpired
  | _ => OtherException
  end.

(** The report after analysing [a.py] and then [b.py]. *)
Definition example_report : DependencyReport :=
  analyze_sequence example_json_loads
    [(example_system, "a.py"); (example_system, "b.py")] new_report.

(** A report whose graph was assigned, as the unit test of the search does. *)
Definition with_graph (graph : list (string * list string)) : DependencyReport :=
  {| total_dependencies := 0;
     external_dependencies := 0;
     internal_dependencies := 0;
     dependencies_by_file := [];
     dependency_graph := graph;
     circular_dependencies := [];
     unused_dependencies := ∅ |}.

(** A file system with nothing in it. *)
Definition empty_fs : FileSystem := fun _ => None.

Definition example_args : Args :=
  {| directory := "missing"; json := None; text := None; detect_circular := false |}.

(** ** Graphs, walks and cycles *)

(** The graph has the edge from [x] to [y]. *)
Definition edge (graph : list (string * list string)) (x y : string) : Prop :=
  y ∈ dict_get x graph [].

(** Each node of [l] has an edge to the next one. *)
Definition is_walk (graph : list (string * list string)) (l : list string) : Prop :=
  forall i x y, l !! i = Some x -> l !! S i = Some y -> edge graph x y.

(** A walk that returns to the node it starts from. *)
Definition closed_walk (graph : list (string * list string)) (c : list string)
  : Prop :=
  (exists x mid, c = x :: mid ++ [x]) /\ is_walk graph c.

(** Some node reaches itself along one edge or more. *)
Definition has_cycle (graph : list (string * list string)) : Prop :=
  exists x, tc (edge graph) x x.

(** The nodes that are visited and off the recursion stack are finished:
    their neighbours are finished too, and none of them lies on a cycle. *)
Definition finished_ok (graph : list (string * list string))
    (seen stack : gset string) : Prop :=
  forall x, x ∈ seen -> x ∉ stack ->
    (forall y, edge graph x y -> y ∈ seen /\ y ∉ stack)
    /\ ~ tc (edge graph) x x.

(** A search step that only adds closed walks to the cycle list. *)
Definition rec_sound (graph : list (string * list string))
    (rec : string -> list string -> SearchState -> Search) : Prop :=
  forall node path st st',
    is_walk graph (path ++ [node]) ->
    Forall (closed_walk graph) (cycles st) ->
    rec node path st = Some (Ok st') ->
    Forall (closed_walk graph) (cycles st').

(** A search step that only appends to the cycle list. *)
Definition rec_prefix (rec : string -> list string -> SearchState -> Search)
  : Prop :=
  forall node path st st',
    rec node path st = Some (Ok st') -> cycles st `prefix_of` cycles st'.

(** A search step that, when it leaves the cycle list empty, finishes its
    node and keeps [finished_ok]. *)
Definition rec_complete (graph : list (string * list string))
    (rec : string -> list string -> SearchState -> Search) : Prop :=
  forall node path st st',
    rec node path st = Some (Ok st') ->
    cycles st' = [] ->
    node ∉ visited st ->
    rec_stack st ⊆ visited st ->
    finished_ok graph (visited st) (rec_stack st) ->
    visited st ⊆ visited st' /\ rec_stack st' = rec_stack st
    /\ node ∈ visited st' /\ finished_ok graph (visited st') (rec_stack st').

(** ** More invariants of the report *)

(** The two counters by kind count the stored records of that kind. *)
Definition counters_by_kind (report : DependencyReport) : Prop :=
  external_dependencies report
  = Z.of_nat (length (filter (fun dep => is_external dep = true)
                             (all_records report)))
  /\ internal_dependencies report
     = Z.of_nat (length (filter (fun dep => is_external dep = false)
                                (all_records report))).

(** Both dictionaries have distinct keys and no empty value; an edge set
    has no repeated element, and its file has records. *)
Definition dicts_well_formed (report : DependencyReport) : Prop :=
  NoDup (dependencies_by_file report).*1
  /\ Forall (fun entry => entry.2 <> []) (dependencies_by_file report)
  /\ NoDup (dependency_graph report).*1
  /\ Forall (fun entry => entry.2 <> [] /\ NoDup entry.2
                          /\ entry.1 ∈ (dependencies_by_file report).*1)
            (dependency_graph report).

(** What one record does to the graph in [analyze_file]. *)
Definition add_edge (path : string) (graph : list (string * list string))
    (dep : DependencyInfo) : list (string * list string) :=
  if negb (is_external dep) then dict_add path (package dep) graph else graph.

(** ** Systems without output *)

(** A system on which no command both exits with 0 and prints something:
    the tool is not installed, always times out, or never matches. *)
Definition no_output (sys : System) : Prop :=
  forall command timeout,
    match sys command timeout with
    | CompletedProcess returncode stdout =>
        returncode <> 0 \/ strip_nonempty stdout = false
    | _ => True
    end.

(** [c in s] *)
Fixpoint has_char (c : ascii) (s : string) : bool :=
  match s with
  | EmptyString => false
  | String a rest => Ascii.eqb a c || has_char c rest
  end.

(** A tree with a skipped and a hidden directory. *)
Definition example_tree : FsNode :=
  Directory
    [("app.py", File);
     ("node_modules", Directory [("lib.js", File)]);
     ("src", Directory [("util.ts", File);
                        (".cache", Directory [("x.py", File)])])].

(** A machine without the tool: every command fails to start. *)
Definition missing_tool : System := fun _ _ => OtherException.

(** A file system with the example tree at [proj]. *)
Definition example_fs : FileSystem := fun path =>
  if decide (path = "proj") then Some example_tree else None.




(** * Properties *)

(** ** Strings *)

Lemma startswith_iff (s pre : string) :
  startswith s pre = true <-> exists rest, s = pre +:+ rest.
Proof.
  unfold startswith. revert s.
  induction pre as [|a pre IH]; intros s; simpl.
  - destruct s; simpl; split; eauto.
  - destruct s as [|b s]; simpl.
    + split; [discriminate | intros [rest H]; discriminate].
    + destruct (ascii_dec a b) as [->|Hne].
      * rewrite IH. split; intros [rest H]; exists rest.
        -- by rewrite H.
        -- by injection H.
      * split; [discriminate | intros [rest H]; injection H; congruence].
Qed.

(** ** The classifier *)

(** C1, as stated, fails: the reference [os] is not empty and does not
    begin with a dot, and the classifier answers false for it. *)
Lemma is_external_package_os :
  "os" <> "" /\ startswith "os" "." = false /\ _is_external_package "os" = false.
Proof. split; [discriminate | split; reflexivity]. Qed.

(** C1, amended: the classifier answers true exactly for the references
    that do not begin with a dot and begin with one of the known external
    indicators; in particular it answers false for every reference that
    begins with a dot. *)
Theorem is_external_package_spec (s : string) :
  (_is_external_package s = true <->
     ~ (exists rest, s = "." +:+ rest) /\
     exists indicator rest, indicator ∈ external_indicators /\ s = indicator +:+ rest)
  /\ ((exists rest, s = "." +:+ rest) -> _is_external_package s = false).
Proof.
  unfold _is_external_package.
  destruct (startswith s ".") eqn:Hdot.
  - apply startswith_iff in Hdot. split; [|done].
    split; [discriminate | intros [Hn _]; contradiction].
  - assert (Hnot : ~ (exists rest, s = "." +:+ rest)).
    { intros H. apply startswith_iff in H. congruence. }
    split; [|intros H; contradiction].
    rewrite existsb_exists. split.
    + intros (ind & Hin & Hpre). split; [done|].
      apply startswith_iff in Hpre as [rest ->].
      exists ind, rest. split; [by apply list_elem_of_In | done].
    + intros (_ & ind & rest & Hin & ->).
      exists ind. split; [by apply list_elem_of_In|].
      apply startswith_iff. eauto.
Qed.

(** ** The ast-grep driver *)


Section Extraction.

Variable json_loads : string -> option Json.





(** ** [analyze_file] *)

(** C10: on a file whose suffix is none of [.py], [.ts], [.tsx], [.js],
    [.jsx], [analyze_file] returns at once and the report, every field of
    it, is the one it was given. *)
Theorem analyze_file_other_suffix sys path report :
  suffix path ∉ source_suffixes ->
  analyze_file json_loads sys path report = (report, Ok ()).
Proof.
  intros Hnot. unfold analyze_file, source_suffixes in *.
  rewrite !elem_of_cons in Hnot.
  destruct (decide (suffix path = ".py")) as [Hpy|_]; [tauto|].
  destruct (decide (suffix path ∈ [".ts"; ".tsx"])) as [Hts|_].
  { rewrite !elem_of_cons in Hts. tauto. }
  destruct (decide (suffix path ∈ [".js"; ".jsx"])) as [Hjs|_].
  { rewrite !elem_of_cons in Hjs. tauto. }
  done.
Qed.

Lemma record_of_match_built path kind m dep :
  record_of_match path kind m = Ok (Some dep) -> built_for path dep.
Proof.
  unfold record_of_match.
  destruct (py_get m _ _) as [meta|]; simpl; [|done].
  destruct (package_node meta) as [[node|]|]; simpl; [|done..].
  destruct (start_line m) as [line|]; simpl; [|done].
  destruct (package_of_node node); try done.
  by intros [= <-].
Qed.

Lemma records_of_matches_built path kind matches deps deps' :
  Forall (built_for path) deps ->
  records_of_matches path kind matches deps = Ok deps' ->
  Forall (built_for path) deps'.
Proof.
  revert deps. induction matches as [|m matches IH]; intros deps Hdeps; simpl.
  - intros [= <-]. done.
  - destruct (record_of_match path kind m) as [[dep|]|e] eqn:Hrec; simpl;
      [|by apply IH|done].
    apply IH. apply Forall_app. split; [done|].
    constructor; [|done]. by eapply record_of_match_built.
Qed.

Lemma records_of_patterns_built sys path language kind patterns deps deps' :
  Forall (built_for path) deps ->
  records_of_patterns json_loads sys path language kind patterns deps = Ok deps' ->
  Forall (built_for path) deps'.
Proof.
  revert deps. induction patterns as [|p patterns IH]; intros deps Hdeps; simpl.
  - intros [= <-]. done.
  - destruct (py_iter _) as [matches|e]; simpl; [|done].
    destruct (records_of_matches _ _ _ _) as [deps1|e] eqn:Hm; simpl; [|done].
    apply IH. by eapply records_of_matches_built.
Qed.

Lemma analyze_python_imports_built sys path deps :
  analyze_python_imports json_loads sys path = Ok deps ->
  Forall (built_for path) deps.
Proof. by apply records_of_patterns_built. Qed.

Lemma analyze_typescript_imports_built sys path language deps :
  analyze_typescript_imports json_loads sys path language = Ok deps ->
  Forall (built_for path) deps.
Proof.
  unfold analyze_typescript_imports.
  destruct (records_of_patterns _ _ _ _ static _ _) as [d1|] eqn:H1;
    cbn [mbind result_bind]; [|done].
  destruct (records_of_patterns _ _ _ _ dynamic _ _) as [d2|] eqn:H2;
    cbn [mbind result_bind]; [|done].
  destruct (records_of_patterns _ _ _ _ require _ _) as [d3|] eqn:H3;
    cbn [mbind result_bind]; [|done].
  intros H4.
  eapply records_of_patterns_built in H1; [|done].
  eapply records_of_patterns_built in H2; [|done].
  eapply records_of_patterns_built in H3; [|done].
  by eapply records_of_patterns_built in H4.
Qed.

(** [analyze_file] either leaves the report alone or folds
    [add_dependency] over records built for its file. *)
Lemma analyze_file_cases sys path report :
  (analyze_file json_loads sys path report).1 = report
  \/ exists deps, Forall (built_for path) deps
       /\ (analyze_file json_loads sys path report).1
          = foldl (add_dependency path) report deps.
Proof.
  unfold analyze_file.
  repeat case_decide; simpl; try (by left).
  - destruct (analyze_python_imports _ _ _) as [deps|] eqn:Hx; [|by left].
    right. exists deps. split; [by eapply analyze_python_imports_built | done].
  - destruct (analyze_typescript_imports _ _ _ _) as [deps|] eqn:Hx; [|by left].
    right. exists deps. split; [by eapply analyze_typescript_imports_built | done].
  - destruct (analyze_typescript_imports _ _ _ _) as [deps|] eqn:Hx; [|by left].
    right. exists deps. split; [by eapply analyze_typescript_imports_built | done].
Qed.

(** The loop of [analyze_file] runs over the records of the call. *)
Lemma analyze_file_records_of_call sys path report :
  (analyze_file json_loads sys path report).1
  = foldl (add_dependency path) report (records_of_call json_loads (sys, path)).
Proof.
  unfold analyze_file, records_of_call. cbn [fst snd].
  repeat case_decide; try done.
  - by destruct (analyze_python_imports _ _ _).
  - by destruct (analyze_typescript_imports _ _ _ _).
  - by destruct (analyze_typescript_imports _ _ _ _).
Qed.

Lemma records_of_call_built sys path :
  Forall (built_for path) (records_of_call json_loads (sys, path)).
Proof.
  unfold records_of_call. cbn [fst snd].
  repeat case_decide; try done.
  - destruct (analyze_python_imports _ _ _) eqn:Hx; [|done].
    by eapply analyze_python_imports_built.
  - destruct (analyze_typescript_imports _ _ _ _) eqn:Hx; [|done].
    by eapply analyze_typescript_imports_built.
  - destruct (analyze_typescript_imports _ _ _ _) eqn:Hx; [|done].
    by eapply analyze_typescript_imports_built.
Qed.

End Extraction.

(** ** The report accumulator *)

Lemma dict_get_dict_append {A} (k k' : string) (v : A) d :
  dict_get k' (dict_append k v d) [] =
  if decide (k' = k) then dict_get k' d [] ++ [v] else dict_get k' d [].
Proof.
  induction d as [|[k0 vs] d IH]; simpl.
  - repeat case_decide; congruence.
  - destruct (decide (k = k0)) as [->|Hne]; simpl.
    + repeat case_decide; congruence.
    + rewrite IH. repeat case_decide; congruence.
Qed.

Lemma length_concat_dict_append {A} (k : string) (v : A) d :
  length (concat (dict_append k v d).*2) = S (length (concat d.*2)).
Proof.
  induction d as [|[k0 vs] d IH]; [done|].
  cbn [dict_append]. case_decide; rewrite !fmap_cons; cbn [snd concat];
    rewrite !length_app; [simpl; lia | rewrite IH; lia].
Qed.

Lemma elem_of_set_add (p v : string) (s : list string) :
  p ∈ set_add v s <-> p ∈ s \/ p = v.
Proof.
  unfold set_add. case_decide.
  - split; [by left | intros [?| ->]; done].
  - rewrite elem_of_app, list_elem_of_singleton. done.
Qed.

Lemma elem_of_dict_get_dict_add (f k v p : string) g :
  p ∈ dict_get f (dict_add k v g) [] <->
  p ∈ dict_get f g [] \/ (f = k /\ p = v).
Proof.
  induction g as [|[k0 vs] g IH]; simpl.
  - case_decide as Hf.
    + rewrite list_elem_of_singleton, elem_of_nil. tauto.
    + rewrite elem_of_nil. tauto.
  - destruct (decide (k = k0)) as [->|Hne]; simpl.
    + case_decide as Hf; [rewrite elem_of_set_add; tauto | tauto].
    + case_decide as Hf; [|done].
      split; [tauto|]. intros [?|[? ?]]; [done|congruence].
Qed.

Lemma add_dependency_counts src report dep :
  counts_consistent report -> counts_consistent (add_dependency src report dep).
Proof.
  intros [Hsum Hlen]. unfold counts_consistent, all_records, add_dependency; simpl.
  rewrite length_concat_dict_append. unfold all_records in Hlen.
  destruct (is_external dep); lia.
Qed.

Lemma foldl_add_dependency_counts src deps report :
  counts_consistent report ->
  counts_consistent (foldl (add_dependency src) report deps).
Proof.
  revert report. induction deps as [|dep deps IH]; intros report H; simpl; [done|].
  apply IH. by apply add_dependency_counts.
Qed.

Lemma add_dependency_edges path report dep :
  built_for path dep ->
  edges_match_records report ->
  edges_match_records (add_dependency path report dep).
Proof.
  intros [Hpath Hext] [Hbuilt Hedges].
  unfold edges_match_records, add_dependency; simpl. rewrite Hpath. split.
  - intros k d. rewrite dict_get_dict_append.
    case_decide as Hk; [|by apply Hbuilt].
    rewrite elem_of_app, list_elem_of_singleton.
    intros [Hd| ->]; [by apply Hbuilt | by subst].
  - intros src target. destruct (is_external dep) eqn:Hdep; simpl.
    + rewrite Hedges. split; intros (d & Hd & Hp & Hi); exists d;
        (split; [|done]); rewrite dict_get_dict_append in *; case_decide; try done.
      * apply elem_of_app. by left.
      * apply elem_of_app in Hd as [Hd|Hd]; [done|].
        apply list_elem_of_singleton in Hd. congruence.
    + rewrite elem_of_dict_get_dict_add, Hedges. split.
      * intros [(d & Hd & Hp & Hi) | [-> ->]].
        -- exists d. split; [|done]. rewrite dict_get_dict_append.
           case_decide; [apply elem_of_app; by left | done].
        -- exists dep. split; [|done]. rewrite dict_get_dict_append.
           case_decide; [|done]. apply elem_of_app. right. by constructor.
      * intros (d & Hd & Hp & Hi). rewrite dict_get_dict_append in Hd.
        case_decide as Hk; [|left; eauto].
        apply elem_of_app in Hd as [Hd|Hd]; [left; eauto|].
        apply list_elem_of_singleton in Hd. subst. by right.
Qed.

Lemma foldl_add_dependency_edges path deps report :
  Forall (built_for path) deps ->
  edges_match_records report ->
  edges_match_records (foldl (add_dependency path) report deps).
Proof.
  revert report. induction deps as [|dep deps IH]; intros report Hall H; simpl; [done|].
  inversion Hall; subst. apply IH; [done|]. by apply add_dependency_edges.
Qed.

(** The loop stores each record under the record's own file, in order. *)
Lemma stored_foldl_add_dependency path deps report src :
  dict_get src (dependencies_by_file (foldl (add_dependency path) report deps)) []
  = dict_get src (dependencies_by_file report) []
    ++ filter (fun dep => file_path dep = src) deps.
Proof.
  revert report. induction deps as [|dep deps IH]; intros report.
  - by rewrite app_nil_r.
  - cbn [foldl]. rewrite IH. cbn [add_dependency dependencies_by_file].
    rewrite dict_get_dict_append, filter_cons.
    destruct (decide (src = file_path dep)) as [->|Hne].
    + rewrite decide_True by done. by rewrite <- app_assoc.
    + by rewrite decide_False by done.
Qed.

Section Sequences.

Variable json_loads : string -> option Json.

Lemma analyze_sequence_snoc calls call report :
  analyze_sequence json_loads (calls ++ [call]) report =
  (analyze_file json_loads call.1 call.2
     (analyze_sequence json_loads calls report)).1.
Proof. unfold analyze_sequence. by rewrite foldl_app. Qed.

(** An invariant of [add_dependency] on records built for the file under
    analysis holds after every sequence of calls. *)
Lemma analyze_sequence_invariant (P : DependencyReport -> Prop) :
  (forall path report dep, built_for path dep -> P report ->
     P (add_dependency path report dep)) ->
  forall calls report, P report -> P (analyze_sequence json_loads calls report).
Proof.
  intros Hstep calls. induction calls as [|call calls IH] using rev_ind;
    intros report HP; [done|].
  rewrite analyze_sequence_snoc.
  destruct (analyze_file_cases json_loads call.1 call.2
              (analyze_sequence json_loads calls report))
    as [-> | (deps & Hbuilt & ->)]; [by apply IH|].
  specialize (IH report HP). revert IH.
  generalize (analyze_sequence json_loads calls report).
  induction Hbuilt as [|dep deps Hdep Hdeps IHd]; intros r Hr; simpl; [done|].
  apply IHd. by apply Hstep.
Qed.

(** C9: after every sequence of [analyze_file] calls on a new report, the
    total is the sum of the external and the internal count, and it is the
    number of records stored in [dependencies_by_file]. *)
Theorem analyze_file_counts_consistent (calls : list (System * string)) :
  let report := analyze_sequence json_loads calls new_report in
  total_dependencies report
    = external_dependencies report + internal_dependencies report
  /\ total_dependencies report = Z.of_nat (length (all_records report)).
Proof.
  apply (analyze_sequence_invariant counts_consistent).
  - intros path report dep _. apply add_dependency_counts.
  - by split.
Qed.

Lemma processed_snoc calls call :
  processed json_loads (calls ++ [call])
  = processed json_loads calls ++ records_of_call json_loads call.
Proof. unfold processed. rewrite bind_app, bind_cons. cbn [mbind list_bind]. by rewrite app_nil_r. Qed.

Lemma processed_built calls :
  Forall (fun dep => is_external dep = _is_external_package (package dep))
         (processed json_loads calls).
Proof.
  induction calls as [|[sys path] calls IH]; [constructor|].
  unfold processed. rewrite bind_cons. apply Forall_app. split; [|exact IH].
  eapply Forall_impl; [apply records_of_call_built|]. by intros dep [_ H].
Qed.

(** What a sequence of calls has stored for a file are the records it
    processed for that file, in the order they were processed. *)
Lemma stored_processed calls src :
  dict_get src
    (dependencies_by_file (analyze_sequence json_loads calls new_report)) []
  = filter (fun dep => file_path dep = src) (processed json_loads calls).
Proof.
  induction calls as [|[sys path] calls IH] using rev_ind; [done|].
  rewrite analyze_sequence_snoc, processed_snoc, filter_app. cbn [fst snd].
  by rewrite analyze_file_records_of_call, stored_foldl_add_dependency, IH.
Qed.

(** C2: after every sequence of [analyze_file] calls on a new report, with
    the stream of records the calls handed to the loop of [analyze_file]:
    what is stored for a file are the records of the stream for that file;
    the graph has an edge from a file to a reference exactly when a record
    of the stream for that file has that reference as its package and is
    not external; and an external record of the stream has no edge for its
    package. The same holds of the stored records. *)
Theorem graph_edge_iff_internal_record (calls : list (System * string)) :
  let report := analyze_sequence json_loads calls new_report in
  let stream := processed json_loads calls in
  (forall src,
     dict_get src (dependencies_by_file report) []
     = filter (fun dep => file_path dep = src) stream)
  /\ (forall src target,
        target ∈ dict_get src (dependency_graph report) [] <->
        exists dep, dep ∈ stream /\ file_path dep = src
                    /\ package dep = target /\ is_external dep = false)
  /\ (forall dep,
        dep ∈ stream -> is_external dep = true ->
        package dep ∉ dict_get (file_path dep) (dependency_graph report) [])
  /\ (forall src target,
        target ∈ dict_get src (dependency_graph report) [] <->
        exists dep, dep ∈ dict_get src (dependencies_by_file report) []
                    /\ package dep = target /\ is_external dep = false)
  /\ (forall src dep,
        dep ∈ dict_get src (dependencies_by_file report) [] ->
        is_external dep = true ->
        package dep ∉ dict_get src (dependency_graph report) []).
Proof.
  intros report stream.
  assert (H : edges_match_records report).
  { apply (analyze_sequence_invariant edges_match_records).
    - intros path r dep. apply add_dependency_edges.
    - split; [intros k dep Hin; simpl in Hin; by apply elem_of_nil in Hin|].
      intros src target. simpl. rewrite elem_of_nil.
      split; [done | intros (d & Hd & _)]. by apply elem_of_nil in Hd. }
  destruct H as [Hbuilt Hedges].
  pose proof (stored_processed calls) as Hstored. fold report stream in Hstored.
  pose proof (processed_built calls) as Hclass. fold stream in Hclass.
  rewrite Forall_forall in Hclass.
  assert (Hstream : forall src target,
            target ∈ dict_get src (dependency_graph report) [] <->
            exists dep, dep ∈ stream /\ file_path dep = src
                        /\ package dep = target /\ is_external dep = false).
  { intros src target. rewrite Hedges. split.
    - intros (dep & Hin & Hp & Hi). exists dep.
      rewrite Hstored in Hin. apply list_elem_of_filter in Hin as [Hf Hin]. done.
    - intros (dep & Hin & Hf & Hp & Hi). exists dep.
      rewrite Hstored. split; [|done]. by apply list_elem_of_filter. }
  split; [exact Hstored|]. split; [exact Hstream|]. split; [|split; [exact Hedges|]].
  - intros dep Hin Hext Hedge.
    apply Hstream in Hedge as (d & Hd & _ & Hp & Hi).
    rewrite (Hclass _ Hin) in Hext. rewrite (Hclass _ Hd) in Hi. congruence.
  - intros src dep Hin Hext Hedge.
    apply Hedges in Hedge as (d & Hd & Hp & Hi).
    apply Hbuilt in Hin as [_ Hc]. apply Hbuilt in Hd as [_ Hc'].
    congruence.
Qed.

End Sequences.

(** ** The text report *)

Section SortedDescending.

Context {A : Type} (key : A -> nat).

#[local] Abbreviation le := (by_key_reversed key).
#[local] Abbreviation desc := (fun x y => (key y <= key x)%nat).

Lemma insert_by_perm x l : insert_by le x l ≡ₚ x :: l.
Proof.
  induction l as [|y l IH]; simpl; [done|].
  destruct (le x y); [done|]. rewrite IH. apply Permutation_swap.
Qed.

Lemma sorted_by_perm l : sorted_by le l ≡ₚ l.
Proof.
  induction l as [|x l IH]; simpl; [done|].
  by rewrite insert_by_perm, IH.
Qed.

Lemma insert_by_sorted x l :
  StronglySorted desc l -> StronglySorted desc (insert_by le x l).
Proof.
  induction 1 as [|y l Hl IH Hy]; simpl; [by repeat constructor|].
  destruct (le x y) eqn:Hxy; unfold by_key_reversed in Hxy.
  - apply Nat.leb_le in Hxy. constructor; [by constructor|].
    constructor; [done|]. eapply Forall_impl; [exact Hy|].
    intros z Hz. simpl in *. lia.
  - apply Nat.leb_gt in Hxy. constructor; [done|].
    rewrite insert_by_perm. constructor; [simpl; lia | done].
Qed.

Lemma sorted_by_sorted l : StronglySorted desc (sorted_by le l).
Proof.
  induction l as [|x l IH]; simpl; [constructor | by apply insert_by_sorted].
Qed.

(** Stability: the elements of one key keep the order they came in. *)
Lemma insert_by_stable n x l :
  filter (fun y => key y = n) (insert_by le x l)
  = filter (fun y => key y = n) (x :: l).
Proof.
  induction l as [|y l IH]; simpl; [done|].
  destruct (le x y) eqn:Hxy; [done|].
  unfold by_key_reversed in Hxy. apply Nat.leb_gt in Hxy.
  rewrite filter_cons, IH, !filter_cons.
  repeat case_decide; try done; lia.
Qed.

Lemma sorted_by_stable n l :
  filter (fun y => key y = n) (sorted_by le l) = filter (fun y => key y = n) l.
Proof.
  induction l as [|x l IH]; simpl; [done|].
  by rewrite insert_by_stable, !filter_cons, IH.
Qed.

End SortedDescending.

(** C8, as stated, fails: in the report on [a.py], which imports [react]
    twice, and [b.py], which imports [./utils], the ranking puts [a.py]
    first, and its fan-out, 0, is less than the fan-out of [b.py], 1. *)
Lemma top_files_not_by_fan_out :
  (top_files example_report).*1 = ["a.py"; "b.py"]
  /\ fan_out example_report "a.py" = 0%nat
  /\ fan_out example_report "b.py" = 1%nat.
Proof. vm_compute. done. Qed.

(** C8, amended: the ranking is the first ten entries of the files of
    [dependencies_by_file] arranged in descending order of the number of
    records stored for the file, external ones and repeated ones included;
    files with the same number keep the order they have in
    [dependencies_by_file]. *)
Theorem top_files_by_record_count (report : DependencyReport) :
  exists ranking,
    top_files report = take 10 ranking
    /\ ranking ≡ₚ dependencies_by_file report
    /\ StronglySorted (fun x y => (length y.2 <= length x.2)%nat) ranking
    /\ forall n,
         filter (fun x => length x.2 = n) ranking
         = filter (fun x => length x.2 = n) (dependencies_by_file report).
Proof.
  eexists. split; [reflexivity|]. split; [|split].
  - apply (sorted_by_perm (fun x : string * list DependencyInfo => length x.2)).
  - apply (sorted_by_sorted (fun x : string * list DependencyInfo => length x.2)).
  - intros n.
    apply (sorted_by_stable (fun x : string * list DependencyInfo => length x.2)).
Qed.

Lemma length_filter_concat {B} (P : B -> Prop) `{!forall x, Decision (P x)}
    (ls : list (list B)) :
  length (filter P (concat ls)) = sum_list_with (fun l => length (filter P l)) ls.
Proof.
  induction ls as [|l ls IH]; simpl; [done|].
  by rewrite filter_app, length_app, IH.
Qed.

Lemma length_filter_Exists {B} (P : B -> Prop) `{!forall x, Decision (P x)}
    (l : list B) :
  ((if decide (Exists P l) then 1 else 0) <= length (filter P l))%nat
  /\ ((length (filter P l) <= 1)%nat ->
      length (filter P l) = if decide (Exists P l) then 1%nat else 0%nat).
Proof.
  induction l as [|x l [IH1 IH2]].
  - rewrite decide_False; [done | by intros HE; inversion HE].
  - rewrite filter_cons. destruct (decide (P x)) as [Hx|Hx].
    + rewrite decide_True by (by left). simpl. split; [lia|].
      intros Hle. destruct (filter P l) eqn:Hf; [done | simpl in Hle; lia].
    + destruct (decide (Exists P l)) as [He|He].
      * rewrite decide_True by (by right). done.
      * rewrite decide_False; [done|]. intros HE. inversion HE; subst; done.
Qed.

(** C4, as stated, fails: in the report on [a.py] and [b.py] the package
    [react] is shown with the count 2, and one file references it. *)
Lemma usage_count_not_files :
  external_usage example_report = [("react", 2%Z)]
  /\ files_referencing example_report "react" = 1%Z.
Proof. vm_compute. done. Qed.

(** C4, amended: the count shown for an external package is the number of
    records that reference it, added up over all files; it is at least the
    number of distinct files that reference it, and equal to that number
    when no file references the package more than once, so a package
    referenced once from each of 3 files is shown with 3. *)
Theorem usage_count_counts_records (report : DependencyReport) pkg n :
  (pkg, n) ∈ external_usage report ->
  n = Z.of_nat (sum_list_with
                  (fun entry => length (filter (fun dep => package dep = pkg) entry.2))
                  (dependencies_by_file report))
  /\ (files_referencing report pkg <= n)%Z
  /\ ((forall entry, entry ∈ dependencies_by_file report ->
         (length (filter (fun dep => package dep = pkg) entry.2) <= 1)%nat) ->
      n = files_referencing report pkg).
Proof.
  unfold external_usage. intros Hin.
  apply list_elem_of_fmap in Hin as (pkg' & [= <- ->] & _).
  unfold usage_count, files_referencing, all_records.
  rewrite length_filter_concat.
  generalize (dependencies_by_file report). intros d.
  split; [|split].
  - f_equal. induction d as [|e d IH]; [done|].
    rewrite fmap_cons. cbn [sum_list_with]. by rewrite IH.
  - apply inj_le. induction d as [|e d IH]; [done|].
    rewrite fmap_cons, filter_cons. cbn [sum_list_with].
    pose proof (length_filter_Exists (fun dep => package dep = pkg) e.2) as [H1 _].
    destruct (decide (Exists _ e.2)); simpl in *; lia.
  - intros Hone. f_equal. induction d as [|e d IH]; [done|].
    rewrite fmap_cons, filter_cons. cbn [sum_list_with].
    rewrite IH by (intros e' He'; apply Hone; by right).
    pose proof (length_filter_Exists (fun dep => package dep = pkg) e.2) as [_ H2].
    rewrite H2 by (apply Hone; by left).
    destruct (decide (Exists _ e.2)); simpl; lia.
Qed.

(** ** The cycle search *)

Lemma index_is_Some (x : string) (path : list string) :
  x ∈ path -> exists i, index x path = Some i.
Proof.
  induction path as [|y path IH]; [by intros H%elem_of_nil|].
  intros Hin. simpl. case_decide as Hxy; [eauto|].
  apply elem_of_cons in Hin as [?|Hin]; [done|].
  destruct (IH Hin) as [i ->]. simpl. eauto.
Qed.

Lemma add_cycles_app found1 found2 cds :
  add_cycles (found1 ++ found2) cds = add_cycles found2 (add_cycles found1 cds).
Proof. unfold add_cycles. by rewrite foldl_app. Qed.

Lemma elem_of_add_cycle c cycle cds :
  c ∈ add_cycle cds cycle <-> c ∈ cds \/ c = cycle.
Proof.
  unfold add_cycle. case_decide.
  - split; [by left | intros [?| ->]; done].
  - by rewrite elem_of_app, list_elem_of_singleton.
Qed.

Lemma elem_of_add_cycles c found cds :
  c ∈ add_cycles found cds <-> c ∈ cds \/ c ∈ found.
Proof.
  revert cds. induction found as [|cycle found IH]; intros cds.
  - simpl. rewrite elem_of_nil. tauto.
  - change (add_cycles (cycle :: found) cds)
      with (add_cycles found (add_cycle cds cycle)).
    rewrite IH, elem_of_add_cycle, elem_of_cons. tauto.
Qed.

(** Offering cycles that are all there already changes nothing. *)
Lemma add_cycles_absorb found cds :
  (forall c, c ∈ found -> c ∈ cds) -> add_cycles found cds = cds.
Proof.
  induction found as [|cycle found IH]; intros Hall; [done|].
  change (add_cycles (cycle :: found) cds)
    with (add_cycles found (add_cycle cds cycle)).
  unfold add_cycle. rewrite decide_True by (apply Hall; by left).
  apply IH. intros c Hc. apply Hall. by right.
Qed.

Lemma add_cycles_idemp found cds :
  add_cycles found (add_cycles found cds) = add_cycles found cds.
Proof.
  apply add_cycles_absorb. intros c Hc. apply elem_of_add_cycles. by right.
Qed.

Section Search.

Variable graph : list (string * list string).

Lemma dict_get_graph_nodes node neighbor :
  neighbor ∈ dict_get node graph [] -> neighbor ∈ graph_nodes graph.
Proof.
  unfold graph_nodes. rewrite elem_of_list_to_set.
  induction graph as [|[k vs] g IH]; [by intros H%elem_of_nil|].
  rewrite bind_cons, elem_of_app, elem_of_cons. cbn [dict_get].
  case_decide; [tauto|]. intros Hin. right. by apply IH.
Qed.

Lemma keys_graph_nodes node : node ∈ graph.*1 -> node ∈ graph_nodes graph.
Proof.
  unfold graph_nodes. rewrite elem_of_list_to_set.
  induction graph as [|[k vs] g IH]; [by intros H%elem_of_nil|].
  rewrite bind_cons, fmap_cons, elem_of_app, !elem_of_cons.
  intros [->|Hin]; [tauto|]. right. by apply IH.
Qed.

Lemma visit_neighbors_spec fuel rec path neighbors :
  search_spec graph fuel rec ->
  (forall n, n ∈ neighbors -> n ∈ graph_nodes graph) ->
  forall seen stack,
    stack ⊆ seen ->
    (forall x, x ∈ stack -> x ∈ path) ->
    (size (graph_nodes graph ∖ seen) < fuel)%nat ->
    exists seen' found,
      seen ⊆ seen'
      /\ forall cds,
           visit_neighbors rec path neighbors
             {| visited := seen; rec_stack := stack; cycles := cds |}
           = Some (Ok {| visited := seen'; rec_stack := stack;
                         cycles := add_cycles found cds |}).
Proof.
  intros Hrec. induction neighbors as [|nb rest IH];
    intros Hnodes seen stack Hsub Hpath Hfuel.
  - exists seen, []. split; [done|]. intros cds. done.
  - assert (Hrest : forall n, n ∈ rest -> n ∈ graph_nodes graph).
    { intros n Hn. apply Hnodes. by right. }
    simpl. unfold visit_neighbor. simpl.
    destruct (decide (nb ∉ seen)) as [Hnew|Hold].
    + destruct (Hrec nb path seen stack) as (seen1 & found1 & Hs1 & _ & Hrun);
        [apply Hnodes; by left | done..|].
      destruct (IH Hrest seen1 stack) as (seen2 & found2 & Hs2 & Hrun2);
        [set_solver | done | |].
      { eapply Nat.le_lt_trans; [|exact Hfuel].
        apply subseteq_size. set_solver. }
      exists seen2, (found1 ++ found2). split; [set_solver|].
      intros cds. by rewrite Hrun, Hrun2, add_cycles_app.
    + destruct (decide (nb ∈ stack)) as [Hon|Hoff].
      * destruct (index_is_Some nb path) as [i Hi]; [by apply Hpath|].
        rewrite Hi.
        destruct (IH Hrest seen stack) as (seen2 & found2 & Hs2 & Hrun2); [done..|].
        exists seen2, ((drop i path ++ [nb]) :: found2). split; [done|].
        intros cds. by rewrite Hrun2.
      * destruct (IH Hrest seen stack) as (seen2 & found2 & Hs2 & Hrun2); [done..|].
        exists seen2, found2. done.
Qed.

Lemma dfs_spec fuel : search_spec graph fuel (dfs graph fuel).
Proof.
  induction fuel as [|fuel IH]; intros node path seen stack Hnode Hnew Hsub Hpath Hfuel;
    [lia|].
  destruct (visit_neighbors_spec fuel (dfs graph fuel) (path ++ [node])
              (dict_get node graph []) IH
              (fun n => dict_get_graph_nodes node n)
              ({[node]} ∪ seen) ({[node]} ∪ stack))
    as (seen' & found & Hs & Hrun).
  - set_solver.
  - intros x Hx. apply elem_of_app.
    apply elem_of_union in Hx as [Hx|Hx]; [right; set_solver | left; by apply Hpath].
  - assert (graph_nodes graph ∖ ({[node]} ∪ seen) ⊂ graph_nodes graph ∖ seen)
      as Hlt%subset_size by set_solver.
    lia.
  - exists seen', found. split; [set_solver|]. split; [set_solver|].
    intros cds. simpl. rewrite Hrun. simpl.
    rewrite decide_True by set_solver.
    do 2 f_equal. f_equal. set_solver.
Qed.

Lemma search_roots_spec roots :
  (forall n, n ∈ roots -> n ∈ graph_nodes graph) ->
  forall seen, exists seen' found, forall cds,
    search_roots graph (S (size (graph_nodes graph))) roots seen cds
    = Some (Ok (seen', add_cycles found cds)).
Proof.
  induction roots as [|node rest IH]; intros Hnodes seen.
  - exists seen, []. done.
  - assert (Hrest : forall n, n ∈ rest -> n ∈ graph_nodes graph).
    { intros n Hn. apply Hnodes. by right. }
    cbn [search_roots]. destruct (decide (node ∉ seen)) as [Hnew|Hold].
    + destruct (dfs_spec (S (size (graph_nodes graph))) node [] seen ∅)
        as (seen1 & found1 & _ & _ & Hrun);
        [apply Hnodes; by left | done | set_solver | set_solver | |].
      { apply Nat.lt_succ_r, subseteq_size. set_solver. }
      destruct (IH Hrest seen1) as (seen2 & found2 & Hrun2).
      exists seen2, (found1 ++ found2). intros cds.
      rewrite Hrun. cbn [visited cycles]. by rewrite Hrun2, add_cycles_app.
    + apply IH, Hrest.
Qed.

(** The search returns on every graph, and what it does to the cycle list
    is to offer it cycles that depend on the graph alone. *)
Lemma find_cycles_spec :
  exists found, forall cds,
    find_cycles graph cds = Some (Ok (add_cycles found cds)).
Proof.
  destruct (search_roots_spec graph.*1 keys_graph_nodes ∅) as (seen & found & Hrun).
  exists found. intros cds. unfold find_cycles. by rewrite Hrun.
Qed.

End Search.

(** C5: the search returns on every report, leaves the graph as it is, and
    a second search right after the first returns the report of the first:
    the cycle list is the same list, so no entry was added. *)
Theorem find_circular_dependencies_twice (report : DependencyReport) :
  exists report1,
    find_circular_dependencies report = Some (Ok report1)
    /\ dependency_graph report1 = dependency_graph report
    /\ find_circular_dependencies report1 = Some (Ok report1).
Proof.
  destruct (find_cycles_spec (dependency_graph report)) as [found Hrun].
  exists (set_circular_dependencies report
            (add_cycles found (circular_dependencies report))).
  unfold find_circular_dependencies. simpl.
  rewrite !Hrun, add_cycles_idemp. done.
Qed.

Lemma dfs_unfold graph fuel node path st :
  dfs graph (S fuel) node path st =
  match visit_neighbors (dfs graph fuel) (path ++ [node]) (dict_get node graph [])
          {| visited := {[node]} ∪ visited st;
             rec_stack := {[node]} ∪ rec_stack st;
             cycles := cycles st |} with
  | Some (Ok st'') =>
      if decide (node ∈ rec_stack st'') then
        Some (Ok {| visited := visited st'';
                    rec_stack := rec_stack st'' ∖ {[node]};
                    cycles := cycles st'' |})
      else Some (Raise KeyError)
  | stop => stop
  end.
Proof. done. Qed.

(** Symbolic execution of the search on a graph given by its entries. *)
Ltac decide_step :=
  match goal with
  | |- context [decide ?P] =>
      first [ rewrite (decide_True (P := P)) by (first [congruence | set_solver])
            | rewrite (decide_False (P := P)) by (first [congruence | set_solver]) ]
  end.

Ltac run_search :=
  repeat first
    [ rewrite dfs_unfold
    | progress unfold visit_neighbor
    | progress cbn [search_roots visit_neighbors dict_get index visited
                    rec_stack cycles fmap list_fmap option_fmap option_map
                    drop app fst]
    | decide_step ].

Lemma size_three (a b c : string) :
  a <> b -> b <> c -> a <> c ->
  size ({[a]} ∪ {[b]} ∪ {[c]} : gset string) = 3%nat.
Proof.
  intros. rewrite !size_union by set_solver. by rewrite !size_singleton.
Qed.

(** C3: on the graph with exactly the edges a→b, b→c, c→a, iterated from
    a, whichever of b and c comes next, the search leaves exactly one
    cycle, [a, b, c, a]; on the graph with exactly the edges a→b, b→c, in
    either order, it leaves the empty list. *)
Theorem find_circular_dependencies_triangle (a b c : string) :
  a <> b -> b <> c -> a <> c ->
  (forall graph,
     graph = [(a, [b]); (b, [c]); (c, [a])] \/ graph = [(a, [b]); (c, [a]); (b, [c])] ->
     find_circular_dependencies (with_graph graph)
     = Some (Ok (set_circular_dependencies (with_graph graph) [[a; b; c; a]])))
  /\ (forall graph,
        graph = [(a, [b]); (b, [c])] \/ graph = [(b, [c]); (a, [b])] ->
        find_circular_dependencies (with_graph graph)
        = Some (Ok (set_circular_dependencies (with_graph graph) []))).
Proof.
  intros Hab Hbc Hac.
  split; intros graph [-> | ->]; unfold find_circular_dependencies, find_cycles;
    cbn [dependency_graph circular_dependencies with_graph].
  - replace (graph_nodes [(a, [b]); (b, [c]); (c, [a])])
      with ({[a]} ∪ {[b]} ∪ {[c]} : gset string)
      by (unfold graph_nodes; simpl; set_solver).
    rewrite size_three by done. run_search. done.
  - replace (graph_nodes [(a, [b]); (c, [a]); (b, [c])])
      with ({[a]} ∪ {[b]} ∪ {[c]} : gset string)
      by (unfold graph_nodes; simpl; set_solver).
    rewrite size_three by done. run_search. done.
  - replace (graph_nodes [(a, [b]); (b, [c])])
      with ({[a]} ∪ {[b]} ∪ {[c]} : gset string)
      by (unfold graph_nodes; simpl; set_solver).
    rewrite size_three by done. run_search. done.
  - replace (graph_nodes [(b, [c]); (a, [b])])
      with ({[a]} ∪ {[b]} ∪ {[c]} : gset string)
      by (unfold graph_nodes; simpl; set_solver).
    rewrite size_three by done. run_search. done.
Qed.

(** ** The command line *)

(** C7, as stated, fails: with nothing at the root directory the run
    finishes, and it prints the report of the empty analysis. *)
Lemma main_missing_root_reports :
  empty_fs (directory example_args) = None
  /\ main example_json_loads example_system empty_fs example_args
     = (banner example_args
          ++ [Print (generate_report_text "missing" new_report)],
        Finished).
Proof. split; reflexivity. Qed.

(** C7, amended: when nothing is at the root directory, the walk visits no
    file and the run finishes all the same: after the banner it prints,
    and writes where asked to, the report of the new, empty analysis. *)
Theorem main_missing_root json_loads sys fs args :
  fs (directory args) = None ->
  main json_loads sys fs args
  = (banner args
       ++ (if detect_circular args then detecting else [])
       ++ report_effects args new_report,
     Finished).
Proof.
  intros Hnone. unfold main, analyze_directory. rewrite Hnone.
  cbn [analyze_walk]. destruct (detect_circular args); [|done].
  assert (find_circular_dependencies new_report = Some (Ok new_report)) as ->
    by reflexivity.
  done.
Qed.

(** ** The theorems at concrete inputs *)


(** A Markdown file leaves the report on [a.py] and [b.py] as it is. *)
Lemma analyze_file_other_suffix_witness :
  analyze_file example_json_loads example_system "docs/README.md" example_report
  = (example_report, Ok ()).
Proof.
  apply (analyze_file_other_suffix example_json_loads example_system
           "docs/README.md" example_report).
  apply (bool_decide_unpack _). vm_compute. exact I.
Defined.

(** The count shown for [react] after [a.py] and [b.py]. *)
Lemma usage_count_counts_records_witness :
  2 = Z.of_nat (sum_list_with
                  (fun entry => length (filter (fun dep => package dep = "react") entry.2))
                  (dependencies_by_file example_report))
  /\ (files_referencing example_report "react" <= 2)%Z
  /\ ((forall entry, entry ∈ dependencies_by_file example_report ->
         (length (filter (fun dep => package dep = "react") entry.2) <= 1)%nat) ->
      2 = files_referencing example_report "react").
Proof.
  apply (usage_count_counts_records example_report "react" 2).
  assert (external_usage example_report = [("react", 2)]) as -> by reflexivity.
  left.
Defined.

(** The triangle on the identifiers [A], [B], [C]. *)
Lemma find_circular_dependencies_triangle_witness :
  (forall graph,
     graph = [("A", ["B"]); ("B", ["C"]); ("C", ["A"])]
     \/ graph = [("A", ["B"]); ("C", ["A"]); ("B", ["C"])] ->
     find_circular_dependencies (with_graph graph)
     = Some (Ok (set_circular_dependencies (with_graph graph) [["A"; "B"; "C"; "A"]])))
  /\ (forall graph,
        graph = [("A", ["B"]); ("B", ["C"])] \/ graph = [("B", ["C"]); ("A", ["B"])] ->
        find_circular_dependencies (with_graph graph)
        = Some (Ok (set_circular_dependencies (with_graph graph) []))).
Proof.
  apply (find_circular_dependencies_triangle "A" "B" "C"); discriminate.
Defined.

(** A run on a missing root that is asked to detect cycles and to write
    the text report. *)
Lemma main_missing_root_witness :
  main example_json_loads example_system empty_fs
    {| directory := "missing"; json := None; text := Some "out.txt";
       detect_circular := true |}
  = (banner {| directory := "missing"; json := None; text := Some "out.txt";
               detect_circular := true |}
       ++ detecting
       ++ report_effects {| directory := "missing"; json := None;
                            text := Some "out.txt"; detect_circular := true |}
            new_report,
     Finished).
Proof.
  apply (main_missing_root example_json_loads example_system empty_fs
           {| directory := "missing"; json := None; text := Some "out.txt";
              detect_circular := true |}).
  reflexivity.
Defined.

(** * Further properties *)

(** ** The cycle search: what it reports *)


Lemma index_drop (x : string) (path : list string) i :
  index x path = Some i -> exists rest, drop i path = x :: rest.
Proof.
  revert i. induction path as [|y path IH]; intros i; simpl; [done|].
  case_decide as Hxy.
  - intros [= <-]. subst. simpl. eauto.
  - destruct (index x path) as [j|] eqn:Hj; simpl; [|done].
    intros [= <-]. simpl. by apply IH.
Qed.

Lemma is_walk_snoc graph l x y :
  is_walk graph l -> last l = Some x -> edge graph x y -> is_walk graph (l ++ [y]).
Proof.
  intros Hl Hlast Hxy i a b Ha Hb.
  destruct (decide (S i < length l)%nat) as [Hlt|Hge].
  - rewrite lookup_app_l in Ha by lia. rewrite lookup_app_l in Hb by lia. eauto.
  - assert (S i = length l) as Hi.
    { apply lookup_lt_Some in Hb. rewrite length_app in Hb. simpl in Hb. lia. }
    rewrite lookup_app_l in Ha by lia.
    rewrite lookup_app_r in Hb by lia.
    rewrite Hi, Nat.sub_diag in Hb. simpl in Hb. injection Hb as <-.
    rewrite last_lookup in Hlast.
    replace (pred (length l)) with i in Hlast by lia.
    congruence.
Qed.

Lemma is_walk_drop graph l n : is_walk graph l -> is_walk graph (drop n l).
Proof.
  intros Hl i a b Ha Hb. rewrite lookup_drop in Ha, Hb.
  apply (Hl (n + i)%nat); [done|]. by rewrite <- Nat.add_succ_r.
Qed.

Lemma last_drop_cons (l : list string) n x rest y :
  drop n l = x :: rest -> last l = Some y -> last (drop n l) = Some y.
Proof.
  intros Hd Hlast. rewrite <- (take_drop n l) in Hlast.
  rewrite Hd in *. by rewrite last_app_cons in Hlast.
Qed.

Section SearchSound.
Variable graph : list (string * list string).

Lemma add_cycle_Forall (P : list string -> Prop) cds c :
  Forall P cds -> P c -> Forall P (add_cycle cds c).
Proof.
  intros Hc Hp. unfold add_cycle. case_decide; [done|].
  apply Forall_app. split; [done | by constructor].
Qed.

Lemma visit_neighbors_sound rec path node neighbors :
  rec_sound graph rec ->
  is_walk graph (path ++ [node]) ->
  (forall n, n ∈ neighbors -> edge graph node n) ->
  forall st st',
    Forall (closed_walk graph) (cycles st) ->
    visit_neighbors rec (path ++ [node]) neighbors st = Some (Ok st') ->
    Forall (closed_walk graph) (cycles st').
Proof.
  intros Hrec Hwalk. induction neighbors as [|nb rest IH]; intros Hedges st st' Hc.
  - simpl. by intros [= <-].
  - assert (Hrest : forall n, n ∈ rest -> edge graph node n).
    { intros n Hn. apply Hedges. by right. }
    assert (Hnb : edge graph node nb) by (apply Hedges; by left).
    cbn [visit_neighbors].
    destruct (visit_neighbor rec (path ++ [node]) nb st) as [[st1|e]|] eqn:Hv; [|done..].
    intros Hrun. apply (IH Hrest st1 st'); [|done].
    unfold visit_neighbor in Hv.
    destruct (decide (nb ∉ visited st)).
    + eapply Hrec; [|done|exact Hv].
      eapply is_walk_snoc; [done| |done]. by rewrite last_snoc.
    + destruct (decide (nb ∈ rec_stack st)); [|by injection Hv as <-].
      destruct (index nb (path ++ [node])) as [i|] eqn:Hi; [|done].
      injection Hv as <-. simpl.
      apply add_cycle_Forall; [done|].
      destruct (index_drop _ _ _ Hi) as [tail Htail].
      split.
      * exists nb, tail. by rewrite Htail.
      * eapply is_walk_snoc; [by apply is_walk_drop| |done].
        eapply last_drop_cons; [done|]. by rewrite last_snoc.
Qed.

Lemma dfs_sound fuel : rec_sound graph (dfs graph fuel).
Proof.
  induction fuel as [|fuel IH]; intros node path st st' Hwalk Hc; [done|].
  rewrite dfs_unfold.
  destruct (visit_neighbors _ _ _ _) as [[st1|e]|] eqn:Hv; [|done..].
  case_decide; [|done]. intros [= <-]. simpl.
  eapply (visit_neighbors_sound (dfs graph fuel)); [done|done| |..|exact Hv]; [|done].
  intros n Hn. done.
Qed.
End SearchSound.

Lemma add_cycle_prefix cds c : cds `prefix_of` add_cycle cds c.
Proof. unfold add_cycle. case_decide; [done | by apply prefix_app_r]. Qed.

Lemma add_cycle_NoDup cds c : NoDup cds -> NoDup (add_cycle cds c).
Proof.
  intros Hnd. unfold add_cycle. case_decide as Hin; [done|].
  apply NoDup_app. split; [done|]. split; [|apply NoDup_singleton].
  intros x Hx Hx'. apply list_elem_of_singleton in Hx'. by subst.
Qed.

Lemma add_cycles_prefix found cds : cds `prefix_of` add_cycles found cds.
Proof.
  revert cds. induction found as [|c found IH]; intros cds; [done|].
  change (add_cycles (c :: found) cds) with (add_cycles found (add_cycle cds c)).
  etrans; [apply add_cycle_prefix | apply IH].
Qed.

Lemma add_cycles_NoDup found cds : NoDup cds -> NoDup (add_cycles found cds).
Proof.
  revert cds. induction found as [|c found IH]; intros cds Hnd; [done|].
  change (add_cycles (c :: found) cds) with (add_cycles found (add_cycle cds c)).
  by apply IH, add_cycle_NoDup.
Qed.

Lemma walk_tc graph x l y :
  is_walk graph (x :: l ++ [y]) -> tc (edge graph) x y.
Proof.
  revert x. induction l as [|z l IH]; intros x Hw.
  - apply tc_once. by apply (Hw 0%nat).
  - eapply tc_l; [by apply (Hw 0%nat)|].
    apply IH. intros i a b Ha Hb. by apply (Hw (S i)).
Qed.

Lemma closed_walk_cycle graph c : closed_walk graph c -> has_cycle graph.
Proof. intros [(x & mid & ->) Hw]. exists x. by eapply walk_tc. Qed.

Section SearchComplete.
Variable graph : list (string * list string).

Lemma finished_closed seen stack x z :
  finished_ok graph seen stack -> x ∈ seen -> x ∉ stack ->
  tc (edge graph) x z -> z ∈ seen /\ z ∉ stack.
Proof.
  intros Hinv Hx Hs Htc. induction Htc as [x y Hxy | x y z Hxy Htc IH].
  - by apply (Hinv x).
  - destruct (Hinv x Hx Hs) as [Hn _]. destruct (Hn y Hxy). by apply IH.
Qed.

Lemma visit_neighbors_prefix rec path neighbors :
  rec_prefix rec ->
  forall st st',
    visit_neighbors rec path neighbors st = Some (Ok st') ->
    cycles st `prefix_of` cycles st'.
Proof.
  intros Hrec. induction neighbors as [|nb rest IH]; intros st st'.
  - simpl. by intros [= <-].
  - cbn [visit_neighbors].
    destruct (visit_neighbor rec path nb st) as [[st1|e]|] eqn:Hv; [|done..].
    intros Hrun. etrans; [|by eapply IH].
    unfold visit_neighbor in Hv.
    destruct (decide (nb ∉ visited st)); [by eapply Hrec|].
    destruct (decide (nb ∈ rec_stack st)); [|by injection Hv as <-].
    destruct (index nb path) as [i|]; [|done].
    injection Hv as <-. simpl. apply add_cycle_prefix.
Qed.

Lemma dfs_prefix fuel : rec_prefix (dfs graph fuel).
Proof.
  induction fuel as [|fuel IH]; intros node path st st'; [done|].
  rewrite dfs_unfold.
  destruct (visit_neighbors _ _ _ _) as [[st1|e]|] eqn:Hv; [|done..].
  case_decide; [|done]. intros [= <-]. simpl.
  by apply (visit_neighbors_prefix _ _ _ IH) in Hv.
Qed.

Lemma add_cycle_not_nil cds c : add_cycle cds c <> [].
Proof.
  unfold add_cycle. case_decide as Hin.
  - intros ->. by apply elem_of_nil in Hin.
  - by destruct cds.
Qed.

Lemma visit_neighbors_complete rec path neighbors :
  rec_prefix rec -> rec_complete graph rec ->
  forall st st',
    visit_neighbors rec path neighbors st = Some (Ok st') ->
    cycles st' = [] ->
    rec_stack st ⊆ visited st ->
    finished_ok graph (visited st) (rec_stack st) ->
    visited st ⊆ visited st' /\ rec_stack st' = rec_stack st
    /\ finished_ok graph (visited st') (rec_stack st')
    /\ forall n, n ∈ neighbors -> n ∈ visited st' /\ n ∉ rec_stack st'.
Proof.
  intros Hpre Hrec. induction neighbors as [|nb rest IH]; intros st st'.
  - simpl. intros [= <-] _ _ Hinv.
    split; [done|]. split; [done|]. split; [done|].
    by intros n Hn%elem_of_nil.
  - cbn [visit_neighbors].
    destruct (visit_neighbor rec path nb st) as [[st1|e]|] eqn:Hv; [|done..].
    intros Hrun Hnil Hsub Hinv.
    assert (Hnil1 : cycles st1 = []).
    { apply (visit_neighbors_prefix _ _ _ Hpre) in Hrun.
      rewrite Hnil in Hrun. by apply prefix_nil_inv in Hrun. }
    assert (Hstep : visited st ⊆ visited st1 /\ rec_stack st1 = rec_stack st
                    /\ finished_ok graph (visited st1) (rec_stack st1)
                    /\ nb ∈ visited st1 /\ nb ∉ rec_stack st1).
    { unfold visit_neighbor in Hv.
      destruct (decide (nb ∉ visited st)) as [Hnew|Hold].
      - destruct (Hrec _ _ _ _ Hv Hnil1 Hnew Hsub Hinv) as (H1 & H2 & H3 & H4).
        split; [done|]. split; [done|]. split; [done|]. split; [done|].
        rewrite H2. set_solver.
      - destruct (decide (nb ∈ rec_stack st)) as [Hon|Hoff].
        + destruct (index nb path) as [i|]; [|done].
          injection Hv as <-. simpl in Hnil1. by apply add_cycle_not_nil in Hnil1.
        + injection Hv as <-.
          split; [done|]. split; [done|]. split; [done|].
          split; [by apply dec_stable | done]. }
    destruct Hstep as (Hs1 & Hr1 & Hinv1 & Hnb1 & Hnb2).
    destruct (IH st1 st' Hrun Hnil) as (Hs2 & Hr2 & Hinv2 & Hall);
      [rewrite Hr1; set_solver | done |].
    split; [set_solver|]. split; [congruence|]. split; [done|].
    intros n [->|Hn]%elem_of_cons; [|by apply Hall].
    split; [set_solver | by rewrite Hr2].
Qed.

Lemma dfs_complete fuel : rec_complete graph (dfs graph fuel).
Proof.
  induction fuel as [|fuel IH]; intros node path st st'; [done|].
  rewrite dfs_unfold.
  destruct (visit_neighbors _ _ _ _) as [[st1|e]|] eqn:Hv; [|done..].
  case_decide as Hon; [|done]. intros [= <-]. simpl.
  intros Hnil Hnew Hsub Hinv.
  destruct (visit_neighbors_complete _ _ _ (dfs_prefix fuel) IH _ _ Hv Hnil)
    as (Hs & Hr & Hinv1 & Hall); simpl in *.
  { set_solver. }
  { intros x Hx Hxs.
    destruct (Hinv x) as [Hn Hc]; [set_solver | set_solver |].
    split; [|done]. intros y Hy. destruct (Hn y Hy).
    assert (y <> node) by set_solver. set_solver. }
  assert (Hnode : node ∉ rec_stack st) by set_solver.
  split; [set_solver|]. split; [rewrite Hr; set_solver|]. split; [set_solver|].
  intros x Hx Hxs. destruct (decide (x = node)) as [->|Hne].
  - split.
    + intros y Hy. destruct (Hall y Hy) as [? ?]. set_solver.
    + intros Htc. inversion Htc as [a b Hab | a b c Hab Hbc]; subst.
      * destruct (Hall _ Hab). set_solver.
      * destruct (Hall _ Hab) as [Hb1 Hb2].
        destruct (finished_closed _ _ _ _ Hinv1 Hb1 Hb2 Hbc). set_solver.
  - destruct (Hinv1 x) as [Hn Hc]; [done | rewrite Hr; set_solver |].
    split; [|done]. intros y Hy. destruct (Hn y Hy) as [Hy1 Hy2].
    rewrite Hr in Hy2. set_solver.
Qed.
End SearchComplete.

Section SearchTop.
Variable graph : list (string * list string).

Lemma is_walk_singleton (x : string) : is_walk graph [x].
Proof. intros i a b Ha Hb. by destruct i. Qed.

Lemma search_roots_sound fuel roots seen cds seen' cds' :
  Forall (closed_walk graph) cds ->
  search_roots graph fuel roots seen cds = Some (Ok (seen', cds')) ->
  Forall (closed_walk graph) cds'.
Proof.
  revert seen cds. induction roots as [|node rest IH]; intros seen cds Hc; simpl.
  - by intros [= _ <-].
  - case_decide; [|by apply IH].
    destruct (dfs graph fuel node [] _) as [[st|e]|] eqn:Hd; [|done..].
    apply IH.
    apply (dfs_sound graph fuel node []
             {| visited := seen; rec_stack := ∅; cycles := cds |} st);
      [apply is_walk_singleton | exact Hc | exact Hd].
Qed.

Lemma search_roots_prefix fuel roots seen cds seen' cds' :
  search_roots graph fuel roots seen cds = Some (Ok (seen', cds')) ->
  cds `prefix_of` cds'.
Proof.
  revert seen cds. induction roots as [|node rest IH]; intros seen cds; simpl.
  - by intros [= _ <-].
  - case_decide; [|by apply IH].
    destruct (dfs graph fuel node [] _) as [[st|e]|] eqn:Hd; [|done..].
    intros Hrun. etrans; [|by eapply IH].
    by apply (dfs_prefix graph fuel) in Hd.
Qed.

Lemma search_roots_complete fuel roots seen seen' :
  finished_ok graph seen ∅ ->
  search_roots graph fuel roots seen [] = Some (Ok (seen', [])) ->
  finished_ok graph seen' ∅ /\ seen ⊆ seen' /\ forall n, n ∈ roots -> n ∈ seen'.
Proof.
  revert seen. induction roots as [|node rest IH]; intros seen Hinv; simpl.
  - intros [= <-]. split; [done|]. split; [done|]. by intros n Hn%elem_of_nil.
  - case_decide as Hnew.
    + destruct (dfs graph fuel node [] _) as [[st|e]|] eqn:Hd; [|done..].
      intros Hrun.
      assert (Hnil : cycles st = []).
      { apply search_roots_prefix in Hrun. by apply prefix_nil_inv in Hrun. }
      destruct (dfs_complete graph fuel _ _ _ _ Hd Hnil) as (Hs & Hr & Hn & Hinv');
        simpl in *; [done | set_solver | done |].
      rewrite Hnil in Hrun. rewrite Hr in Hinv'.
      destruct (IH _ Hinv' Hrun) as (Hinv2 & Hs2 & Hall).
      split; [done|]. split; [set_solver|].
      intros n [->|Hin]%elem_of_cons; [set_solver | by apply Hall].
    + intros Hrun. destruct (IH _ Hinv Hrun) as (Hinv2 & Hs2 & Hall).
      split; [done|]. split; [done|].
      intros n [->|Hin]%elem_of_cons; [|by apply Hall].
      set_solver.
Qed.

Lemma dict_get_not_key (x : string) :
  x ∉ graph.*1 -> dict_get x graph ([] : list string) = [].
Proof.
  induction graph as [|[k vs] g IH]; [done|].
  rewrite fmap_cons, not_elem_of_cons. simpl. intros [Hne Hnot].
  case_decide; [done | by apply IH].
Qed.

Lemma finished_ok_empty : finished_ok graph ∅ ∅.
Proof. intros x Hx. set_solver. Qed.

Lemma find_cycles_empty_iff :
  find_cycles graph [] = Some (Ok []) <-> ~ has_cycle graph.
Proof.
  destruct (find_cycles_spec graph) as [found Hspec].
  unfold find_cycles in *.
  destruct (search_roots graph _ _ ∅ []) as [[[seen' cds']|e]|] eqn:Hrun.
  2,3: specialize (Hspec []); rewrite Hrun in Hspec; done.
  split.
  - intros [= ->] [x Hx].
    destruct (search_roots_complete _ _ _ _ finished_ok_empty Hrun)
      as (Hinv & _ & Hall).
    destruct (decide (x ∈ graph.*1)) as [Hkey|Hkey].
    + destruct (Hinv x) as [_ Hc]; [by apply Hall | set_solver | done].
    + apply dict_get_not_key in Hkey.
      inversion Hx as [a b Hab | a b c Hab Hbc]; subst;
        unfold edge in Hab; rewrite Hkey in Hab; by apply elem_of_nil in Hab.
  - intros Hacyclic. do 2 f_equal.
    pose proof (search_roots_sound _ _ _ _ _ _ (Forall_nil_2 _) Hrun) as Hall.
    destruct cds' as [|c cds']; [done|].
    exfalso. apply Hacyclic. apply (closed_walk_cycle graph c).
    by inversion Hall.
Qed.
End SearchTop.

Lemma find_cycles_found (graph : list (string * list string)) :
  exists found,
    Forall (closed_walk graph) found
    /\ forall cds, find_cycles graph cds = Some (Ok (add_cycles found cds)).
Proof.
  destruct (find_cycles_spec graph) as [found Hspec].
  exists found. split; [|done].
  pose proof (Hspec []) as Hrun. unfold find_cycles in Hrun.
  destruct (search_roots graph _ _ ∅ []) as [[[seen' cds']|e]|] eqn:Hroots;
    [|done..].
  injection Hrun as ->.
  pose proof (search_roots_sound _ _ _ _ _ _ _ (Forall_nil_2 _) Hroots) as Hall.
  rewrite Forall_forall in Hall. apply Forall_forall. intros c Hc.
  apply Hall, elem_of_add_cycles. by right.
Qed.

Lemma visit_neighbors_mono
    (rec rec' : string -> list string -> SearchState -> Search) path neighbors :
  (forall n p s r, rec n p s = Some r -> rec' n p s = Some r) ->
  forall st r,
    visit_neighbors rec path neighbors st = Some r ->
    visit_neighbors rec' path neighbors st = Some r.
Proof.
  intros Hmono. induction neighbors as [|nb rest IH]; intros st r; [done|].
  cbn [visit_neighbors]. unfold visit_neighbor.
  destruct (decide (nb ∉ visited st)) as [Hnew|Hold].
  - destruct (rec nb path st) as [[st'|e]|] eqn:Hrec; [| |done].
    + rewrite (Hmono _ _ _ _ Hrec). apply IH.
    + by rewrite (Hmono _ _ _ _ Hrec).
  - destruct (decide (nb ∈ rec_stack st)); [|apply IH].
    destruct (index nb path); [apply IH | done].
Qed.

(** A search that returns with room for [fuel] nested calls returns the
    same with room for more. *)
Lemma dfs_mono graph fuel fuel' node path st r :
  (fuel <= fuel')%nat ->
  dfs graph fuel node path st = Some r -> dfs graph fuel' node path st = Some r.
Proof.
  revert fuel' node path st r.
  induction fuel as [|fuel IH]; intros fuel' node path st r Hle; [done|].
  destruct fuel' as [|fuel']; [lia|]. rewrite !dfs_unfold.
  destruct (visit_neighbors (dfs graph fuel) _ _ _) as [r'|] eqn:Hv; [|done].
  assert (Hrec : forall n p s r0,
             dfs graph fuel n p s = Some r0 -> dfs graph fuel' n p s = Some r0).
  { intros n p s r0. apply IH. lia. }
  by rewrite (visit_neighbors_mono _ _ _ _ Hrec _ _ Hv).
Qed.

Lemma search_roots_mono graph fuel fuel' roots seen cds r :
  (fuel <= fuel')%nat ->
  search_roots graph fuel roots seen cds = Some r ->
  search_roots graph fuel' roots seen cds = Some r.
Proof.
  intros Hle. revert seen cds.
  induction roots as [|node rest IH]; intros seen cds; [done|].
  cbn [search_roots]. case_decide; [|apply IH].
  destruct (dfs graph fuel node [] _) as [r'|] eqn:Hd; [|done].
  rewrite (dfs_mono _ _ _ _ _ _ _ Hle Hd).
  destruct r' as [st|e]; [apply IH | done].
Qed.

(** A search that returns within a limit returns what the search without
    one does, and with room for more nested calls than the graph has
    identifiers the limit is never met. *)
Lemma find_circular_dependencies_within_spec limit report :
  (forall report',
     find_circular_dependencies_within limit report = Ok report' ->
     find_circular_dependencies report = Some (Ok report'))
  /\ ((size (graph_nodes (dependency_graph report)) < limit)%nat ->
      forall report',
        find_circular_dependencies report = Some (Ok report') ->
        find_circular_dependencies_within limit report = Ok report').
Proof.
  unfold find_circular_dependencies_within, find_circular_dependencies, find_cycles.
  set (graph := dependency_graph report). set (cds := circular_dependencies report).
  destruct (search_roots_spec graph graph.*1 (keys_graph_nodes graph) ∅)
    as (seen & found & Hrun).
  specialize (Hrun cds). rewrite Hrun. split.
  - intros report' Hlim.
    destruct (search_roots graph limit _ ∅ cds) as [r|] eqn:Hroots; [|done].
    apply (search_roots_mono _ _ (limit `max` S (size (graph_nodes graph))))
      in Hroots; [|lia].
    apply (search_roots_mono _ _ (limit `max` S (size (graph_nodes graph))))
      in Hrun; [|lia].
    rewrite Hroots in Hrun. injection Hrun as ->. by injection Hlim as <-.
  - intros Hsize report' [= <-].
    apply (search_roots_mono _ _ limit) in Hrun; [|lia]. by rewrite Hrun.
Qed.

(** A chain of three files needs three nested calls: with room for two
    the search raises, with room for three it returns. *)
Lemma find_circular_dependencies_within_chain :
  find_circular_dependencies_within 2 (with_graph [("A", ["B"]); ("B", ["C"])])
  = Raise RecursionError
  /\ find_circular_dependencies_within 3 (with_graph [("A", ["B"]); ("B", ["C"])])
     = Ok (with_graph [("A", ["B"]); ("B", ["C"])]).
Proof. split; vm_compute; reflexivity. Qed.

(** X1: whatever room the interpreter has for nested calls, when the
    search returns, every entry of the cycle list afterwards either was
    there before or is a closed walk of the graph: it ends with the node it
    starts with and each node has an edge to the next one. With room for
    more nested calls than the graph has identifiers the search does
    return. *)
Theorem reported_cycles_are_closed_walks (limit : nat) (report : DependencyReport) :
  (forall report',
     find_circular_dependencies_within limit report = Ok report' ->
     forall c, c ∈ circular_dependencies report' ->
       c ∈ circular_dependencies report
       \/ closed_walk (dependency_graph report) c)
  /\ ((size (graph_nodes (dependency_graph report)) < limit)%nat ->
      exists report', find_circular_dependencies_within limit report = Ok report').
Proof.
  destruct (find_circular_dependencies_within_spec limit report) as [Hto Hfrom].
  destruct (find_cycles_found (dependency_graph report)) as (found & Hall & Hrun).
  assert (Hfree : find_circular_dependencies report
                  = Some (Ok (set_circular_dependencies report
                                (add_cycles found (circular_dependencies report))))).
  { unfold find_circular_dependencies. by rewrite Hrun. }
  split.
  - intros report' Hlim%Hto. rewrite Hfree in Hlim. injection Hlim as <-.
    cbn [circular_dependencies set_circular_dependencies].
    intros c [Hc|Hc]%elem_of_add_cycles; [by left | right].
    rewrite Forall_forall in Hall. by apply Hall.
  - intros Hsize. eexists. by apply Hfrom.
Qed.

(** X2: on a report whose cycle list is empty, a search that returns
    leaves the list empty exactly when the graph has no cycle, that is when
    no node reaches itself along one or more edges. *)
Theorem no_cycle_reported_iff_acyclic (limit : nat)
    (report report' : DependencyReport) :
  circular_dependencies report = [] ->
  find_circular_dependencies_within limit report = Ok report' ->
  (circular_dependencies report' = [] <-> ~ has_cycle (dependency_graph report)).
Proof.
  intros Hnil Hlim.
  apply (find_circular_dependencies_within_spec limit report) in Hlim.
  pose proof (find_cycles_empty_iff (dependency_graph report)) as Hiff.
  unfold find_circular_dependencies in Hlim. rewrite Hnil in Hlim.
  destruct (find_cycles (dependency_graph report) []) as [[cds|e]|]; [|done..].
  injection Hlim as <-. cbn [circular_dependencies set_circular_dependencies].
  rewrite <- Hiff. split; [by intros -> | by intros [= ->]].
Qed.

(** X3: the search only appends to the cycle list and touches nothing
    else: the list it finds is a prefix of the list it leaves, a list
    without repetition stays without repetition, and the counters, the
    records and the graph are the same afterwards. *)
Theorem search_only_appends (report : DependencyReport) :
  exists report',
    find_circular_dependencies report = Some (Ok report')
    /\ circular_dependencies report `prefix_of` circular_dependencies report'
    /\ (NoDup (circular_dependencies report) -> NoDup (circular_dependencies report'))
    /\ dependency_graph report' = dependency_graph report
    /\ dependencies_by_file report' = dependencies_by_file report
    /\ (total_dependencies report', external_dependencies report',
        internal_dependencies report')
       = (total_dependencies report, external_dependencies report,
          internal_dependencies report).
Proof.
  destruct (find_cycles_spec (dependency_graph report)) as [found Hrun].
  eexists. unfold find_circular_dependencies. rewrite Hrun. split; [done|]. simpl.
  split; [apply add_cycles_prefix|]. split; [apply add_cycles_NoDup | done].
Qed.

(** ** The report after any number of files *)


Lemma concat_dict_append_perm {A} (k : string) (v : A) d :
  concat (dict_append k v d).*2 ≡ₚ v :: concat d.*2.
Proof.
  induction d as [|[k0 vs] d IH]; [done|].
  cbn [dict_append]. case_decide; rewrite !fmap_cons; cbn [snd concat].
  - rewrite <- app_assoc. simpl. by rewrite Permutation_middle.
  - rewrite IH. by rewrite Permutation_middle.
Qed.

Lemma add_dependency_counters src report dep :
  counters_by_kind report -> counters_by_kind (add_dependency src report dep).
Proof.
  intros [He Hi]. unfold counters_by_kind, all_records, add_dependency in *; simpl.
  rewrite !(concat_dict_append_perm (file_path dep) dep), !filter_cons.
  destruct (is_external dep) eqn:Hd; simpl; split; lia.
Qed.

Lemma keys_dict_append {A} (k : string) (v : A) d :
  (dict_append k v d).*1 = if decide (k ∈ d.*1) then d.*1 else d.*1 ++ [k].
Proof.
  induction d as [|[k0 vs] d IH]; [done|].
  cbn [dict_append]. destruct (decide (k = k0)) as [->|Hne]; rewrite !fmap_cons; simpl.
  - rewrite decide_True by (by left). done.
  - rewrite IH. destruct (decide (k ∈ d.*1)) as [Hin|Hnin].
    + rewrite decide_True by (by right). done.
    + rewrite decide_False; [done|]. rewrite elem_of_cons. tauto.
Qed.

Lemma keys_dict_add (k v : string) d :
  (dict_add k v d).*1 = if decide (k ∈ d.*1) then d.*1 else d.*1 ++ [k].
Proof.
  induction d as [|[k0 vs] d IH]; [done|].
  cbn [dict_add]. destruct (decide (k = k0)) as [->|Hne]; rewrite !fmap_cons; simpl.
  - rewrite decide_True by (by left). done.
  - rewrite IH. destruct (decide (k ∈ d.*1)) as [Hin|Hnin].
    + rewrite decide_True by (by right). done.
    + rewrite decide_False; [done|]. rewrite elem_of_cons. tauto.
Qed.

Lemma NoDup_snoc_key (l : list string) k :
  NoDup l -> NoDup (if decide (k ∈ l) then l else l ++ [k]).
Proof.
  intros Hnd. case_decide; [done|].
  apply NoDup_app. split; [done|]. split; [|apply NoDup_singleton].
  intros x Hx Hx'. apply list_elem_of_singleton in Hx'. by subst.
Qed.

Lemma Forall_dict_append {A} (P : string * list A -> Prop) (k : string) (v : A) d :
  Forall P d ->
  (forall vs, P (k, vs ++ [v])) -> P (k, [v]) ->
  Forall P (dict_append k v d).
Proof.
  intros Hd Hupd Hnew. induction Hd as [|[k0 vs] d Hx Hd IH]; simpl.
  - by repeat constructor.
  - case_decide; subst; constructor; try done.
Qed.

Lemma Forall_dict_add (P : string * list string -> Prop) (k v : string) d :
  Forall P d ->
  (forall vs, P (k, vs) -> P (k, set_add v vs)) -> P (k, [v]) ->
  Forall P (dict_add k v d).
Proof.
  intros Hd Hupd Hnew. induction Hd as [|[k0 vs] d Hx Hd IH]; simpl.
  - by repeat constructor.
  - case_decide; subst; constructor; try done. by apply Hupd.
Qed.

Lemma set_add_NoDup v s : NoDup s -> NoDup (set_add v s).
Proof.
  intros Hnd. unfold set_add. case_decide; [done|].
  apply NoDup_app. split; [done|]. split; [|apply NoDup_singleton].
  intros x Hx Hx'. apply list_elem_of_singleton in Hx'. by subst.
Qed.

Lemma set_add_not_nil v s : set_add v s <> [].
Proof.
  unfold set_add. case_decide as Hin.
  - intros ->. by apply elem_of_nil in Hin.
  - by destruct s.
Qed.

Lemma add_dependency_well_formed path report dep :
  built_for path dep ->
  dicts_well_formed report -> dicts_well_formed (add_dependency path report dep).
Proof.
  intros [Hpath _] (Hk & Hne & Hgk & Hg).
  unfold dicts_well_formed, add_dependency; simpl. rewrite Hpath.
  assert (Hkeys : forall k, k ∈ (dependencies_by_file report).*1 ->
                    k ∈ (dict_append path dep (dependencies_by_file report)).*1).
  { intros k Hin. rewrite keys_dict_append. case_decide; [done|].
    apply elem_of_app. by left. }
  assert (Hpathkey : path ∈ (dict_append path dep (dependencies_by_file report)).*1).
  { rewrite keys_dict_append. case_decide; [done|].
    apply elem_of_app. right. by constructor. }
  split; [rewrite keys_dict_append; by apply NoDup_snoc_key|].
  split.
  { apply Forall_dict_append; [done| |done]. intros vs. simpl. by destruct vs. }
  destruct (is_external dep); simpl.
  - split; [done|]. eapply Forall_impl; [exact Hg|].
    intros [k vs] (H1 & H2 & H3). simpl in *. split; [done|]. split; [done|].
    by apply Hkeys.
  - split; [rewrite keys_dict_add; by apply NoDup_snoc_key|].
    apply Forall_dict_add.
    + eapply Forall_impl; [exact Hg|].
      intros [k vs] (H1 & H2 & H3). simpl in *. split; [done|]. split; [done|].
      by apply Hkeys.
    + intros vs (H1 & H2 & H3). simpl in *.
      split; [apply set_add_not_nil|]. split; [by apply set_add_NoDup | done].
    + simpl. split; [done|]. split; [apply NoDup_singleton | done].
Qed.

Section ReportInvariants.
Variable json_loads : string -> option Json.

(** X4: after every sequence of [analyze_file] calls on a new report the
    external counter is the number of stored records that are external and
    the internal counter the number of those that are not. *)
Theorem counters_count_records_by_kind (calls : list (System * string)) :
  let report := analyze_sequence json_loads calls new_report in
  external_dependencies report
    = Z.of_nat (length (filter (fun dep => is_external dep = true) (all_records report)))
  /\ internal_dependencies report
     = Z.of_nat (length (filter (fun dep => is_external dep = false) (all_records report))).
Proof.
  apply (analyze_sequence_invariant json_loads counters_by_kind).
  - intros path report dep _. apply add_dependency_counters.
  - by split.
Qed.

(** X5: after every sequence of [analyze_file] calls on a new report no
    file and no edge source is stored twice, every stored file has at least
    one record (a file without a recognised import is not stored, so it is
    not counted as analysed), and every edge source is a stored file whose
    targets are distinct and at least one. *)
Theorem report_dicts_well_formed (calls : list (System * string)) :
  let report := analyze_sequence json_loads calls new_report in
  NoDup (dependencies_by_file report).*1
  /\ Forall (fun entry => entry.2 <> []) (dependencies_by_file report)
  /\ NoDup (dependency_graph report).*1
  /\ Forall (fun entry => entry.2 <> [] /\ NoDup entry.2
                          /\ entry.1 ∈ (dependencies_by_file report).*1)
            (dependency_graph report).
Proof.
  apply (analyze_sequence_invariant json_loads dicts_well_formed).
  - intros path report dep. apply add_dependency_well_formed.
  - split; [constructor|]. split; [constructor|]. split; constructor.
Qed.
End ReportInvariants.

Section DirectoryInvariants.

Variable json_loads : string -> option Json.

Lemma analyze_sequence_app calls1 calls2 report :
  analyze_sequence json_loads (calls1 ++ calls2) report
  = analyze_sequence json_loads calls2 (analyze_sequence json_loads calls1 report).
Proof. unfold analyze_sequence. by rewrite foldl_app. Qed.

Lemma analyze_files_sequence sys root files report :
  exists calls,
    (analyze_files json_loads sys root files report).1
    = analyze_sequence json_loads calls report.
Proof.
  revert report. induction files as [|f files IH]; intros report.
  - by exists [].
  - cbn [analyze_files]. case_decide; [|apply IH].
    destruct (analyze_file json_loads sys (path_div root f) report)
      as [report' [[]|e]] eqn:Hf.
    + destruct (IH report') as [calls Hcalls].
      exists ((sys, path_div root f) :: calls). rewrite Hcalls.
      unfold analyze_sequence. simpl. by rewrite Hf.
    + exists [(sys, path_div root f)]. unfold analyze_sequence. simpl. by rewrite Hf.
Qed.

Lemma analyze_walk_sequence sys walk report :
  exists calls,
    (analyze_walk json_loads sys walk report).1
    = analyze_sequence json_loads calls report.
Proof.
  revert report. induction walk as [|[[root dirs] files] walk IH]; intros report.
  - by exists [].
  - cbn [analyze_walk].
    destruct (analyze_files_sequence sys root files report) as [calls1 H1].
    destruct (analyze_files json_loads sys root files report) as [report' [[]|e]];
      simpl in H1.
    + destruct (IH report') as [calls2 H2].
      exists (calls1 ++ calls2). by rewrite analyze_sequence_app, <- H1.
    + by exists calls1.
Qed.

(** X6: the report that [analyze_directory] builds from a new one, also
    when it stops at a file whose extraction raises, keeps the counting
    invariants and has exactly the edges of its internal records. *)
Theorem analyze_directory_keeps_invariants sys fs directory skip_dirs :
  let report :=
    (analyze_directory json_loads sys fs directory skip_dirs new_report).1 in
  total_dependencies report
    = external_dependencies report + internal_dependencies report
  /\ total_dependencies report = Z.of_nat (length (all_records report))
  /\ forall src target,
       target ∈ dict_get src (dependency_graph report) [] <->
       exists dep, dep ∈ dict_get src (dependencies_by_file report) []
                   /\ package dep = target /\ is_external dep = false.
Proof.
  assert (Hseq : exists calls,
            (analyze_directory json_loads sys fs directory skip_dirs new_report).1
            = analyze_sequence json_loads calls new_report).
  { unfold analyze_directory. destruct (fs directory); apply analyze_walk_sequence. }
  destruct Hseq as [calls ->].
  assert (Hc : counts_consistent (analyze_sequence json_loads calls new_report)).
  { apply (analyze_sequence_invariant json_loads counts_consistent).
    - intros path report dep _. apply add_dependency_counts.
    - by split. }
  assert (He : edges_match_records (analyze_sequence json_loads calls new_report)).
  { apply (analyze_sequence_invariant json_loads edges_match_records).
    - intros path r dep. apply add_dependency_edges.
    - split; [intros k dep Hin; simpl in Hin; by apply elem_of_nil in Hin|].
      intros src target. simpl. rewrite elem_of_nil.
      split; [done | intros (d & Hd & _)]. by apply elem_of_nil in Hd. }
  destruct Hc as [Hc1 Hc2]. destruct He as [_ He]. done.
Qed.

End DirectoryInvariants.

(** ** The walk, and a machine without the tool *)


Lemma FsNode_nested_ind (P : FsNode -> Prop) :
  P File ->
  (forall entries, Forall (fun e => P e.2) entries -> P (Directory entries)) ->
  forall node, P node.
Proof.
  intros HF HD. fix IH 1. intros [|entries]; [exact HF|].
  apply HD. induction entries as [|[d sub] es IHes]; constructor;
    [apply IH | exact IHes].
Qed.

Lemma os_walk_Directory keep top entries :
  os_walk keep top (Directory entries) =
  (top, filter (fun d => keep d = true) (dir_names entries), file_names entries)
  :: concat ((fun e => match e.2 with
                       | File => []
                       | Directory _ =>
                           if keep e.1 then os_walk keep (os_path_join top e.1) e.2
                           else []
                       end) <$> entries).
Proof.
  cbn [os_walk]. f_equal.
  induction entries as [|[d [|es]] rest IH]; [done|..].
  - rewrite fmap_cons. cbn [concat snd app]. exact IH.
  - rewrite fmap_cons. cbn [concat snd fst]. destruct (keep d); [|exact IH].
    f_equal. exact IH.
Qed.

(** The entries [prune] leaves of the entries of a directory. *)
Lemma prune_Directory keep entries :
  prune keep (Directory entries) =
  Directory (concat ((fun e => match e.2 with
                               | File => [e]
                               | Directory _ =>
                                   if keep e.1 then [(e.1, prune keep e.2)] else []
                               end) <$> entries)).
Proof.
  cbn [prune]. f_equal.
  induction entries as [|[d [|es]] rest IH]; [done|..].
  - rewrite fmap_cons. cbn [concat snd app]. by rewrite IH.
  - rewrite fmap_cons. cbn [concat snd fst]. destruct (keep d); [|exact IH].
    cbn [app]. by rewrite IH.
Qed.

Lemma all_dirs_kept_Directory keep entries :
  all_dirs_kept keep (Directory entries) <->
  Forall (fun e => match e.2 with
                   | File => True
                   | Directory _ => keep e.1 = true /\ all_dirs_kept keep e.2
                   end) entries.
Proof.
  cbn [all_dirs_kept].
  induction entries as [|[d [|es]] rest IH].
  - split; [constructor | done].
  - rewrite Forall_cons, <- IH. simpl. tauto.
  - rewrite Forall_cons, <- IH. simpl. tauto.
Qed.

Lemma keep_dir_true skip_dirs d :
  keep_dir skip_dirs d = true <-> (d ∉ skip_dirs) /\ startswith d "." = false.
Proof.
  unfold keep_dir. rewrite andb_true_iff, bool_decide_eq_true, negb_true_iff. done.
Qed.

Lemma filter_idemp {A} (P : A -> Prop) `{!forall x, Decision (P x)} (l : list A) :
  filter P (filter P l) = filter P l.
Proof.
  induction l as [|x l IH]; [done|]. rewrite filter_cons.
  case_decide; [|done]. rewrite filter_cons, decide_True by done. by rewrite IH.
Qed.

Section Prune.

Variable keep : string -> bool.

Lemma pruned_entry_File d : pruned_entry keep (d, File) = [(d, File)].
Proof. done. Qed.

Lemma pruned_entry_Directory d es :
  pruned_entry keep (d, Directory es)
  = if keep d then [(d, prune keep (Directory es))] else [].
Proof. done. Qed.

Lemma dir_names_File d rest : dir_names ((d, File) :: rest) = dir_names rest.
Proof. done. Qed.

Lemma dir_names_Directory d es rest :
  dir_names ((d, Directory es) :: rest) = d :: dir_names rest.
Proof. done. Qed.

Lemma file_names_File d rest : file_names ((d, File) :: rest) = d :: file_names rest.
Proof. done. Qed.

Lemma file_names_Directory d es rest :
  file_names ((d, Directory es) :: rest) = file_names rest.
Proof. done. Qed.

Lemma prune_is_Directory es : exists es', prune keep (Directory es) = Directory es'.
Proof. cbn [prune]. eauto. Qed.

Lemma dir_names_pruned entries :
  dir_names (concat (pruned_entry keep <$> entries))
  = filter (fun d => keep d = true) (dir_names entries).
Proof.
  induction entries as [|[d [|es]] rest IH]; [done|..].
  - rewrite fmap_cons, pruned_entry_File, dir_names_File. cbn [concat app].
    by rewrite dir_names_File.
  - rewrite fmap_cons, pruned_entry_Directory, dir_names_Directory, filter_cons.
    cbn [concat]. destruct (keep d) eqn:Hk.
    + rewrite decide_True by done. destruct (prune_is_Directory es) as [es' ->].
      cbn [app]. by rewrite dir_names_Directory, IH.
    + rewrite decide_False by done. exact IH.
Qed.

Lemma file_names_pruned entries :
  file_names (concat (pruned_entry keep <$> entries)) = file_names entries.
Proof.
  induction entries as [|[d [|es]] rest IH]; [done|..].
  - rewrite fmap_cons, pruned_entry_File. cbn [concat app].
    by rewrite !file_names_File, IH.
  - rewrite fmap_cons, pruned_entry_Directory, file_names_Directory.
    cbn [concat]. destruct (keep d); [|exact IH].
    destruct (prune_is_Directory es) as [es' ->].
    cbn [app]. by rewrite file_names_Directory.
Qed.

Lemma prune_entries entries :
  prune keep (Directory entries)
  = Directory (concat (pruned_entry keep <$> entries)).
Proof. exact (prune_Directory keep entries). Qed.

Lemma os_walk_entries top entries :
  os_walk keep top (Directory entries) =
  (top, filter (fun d => keep d = true) (dir_names entries), file_names entries)
  :: concat (walk_below keep top <$> entries).
Proof. exact (os_walk_Directory keep top entries). Qed.

Lemma walks_pruned top entries :
  Forall (fun e => forall top,
            os_walk keep top e.2 = os_walk keep top (prune keep e.2)) entries ->
  concat (walk_below keep top <$> concat (pruned_entry keep <$> entries))
  = concat (walk_below keep top <$> entries).
Proof.
  induction 1 as [|[d sub] rest Hsub Hrest IH]; [done|].
  rewrite !fmap_cons. cbn [concat]. rewrite fmap_app, concat_app, IH. f_equal.
  destruct sub as [|es]; [done|].
  rewrite pruned_entry_Directory. unfold walk_below at 2. cbn [fst snd].
  destruct (keep d) eqn:Hk; [|done].
  destruct (prune_is_Directory es) as [es' Hes].
  rewrite fmap_cons. cbn [concat fmap list_fmap app]. rewrite app_nil_r.
  unfold walk_below. cbn [fst snd]. rewrite Hes, Hk, <- Hes.
  symmetry. apply (Hsub (os_path_join top d)).
Qed.

Lemma pruned_kept entries :
  Forall (fun e => all_dirs_kept keep (prune keep e.2)) entries ->
  Forall (fun e => match e.2 with
                   | File => True
                   | Directory _ => keep e.1 = true /\ all_dirs_kept keep e.2
                   end) (concat (pruned_entry keep <$> entries)).
Proof.
  induction 1 as [|[d sub] rest Hsub Hrest IH]; [constructor|].
  rewrite fmap_cons. cbn [concat]. apply Forall_app. split; [|exact IH].
  destruct sub as [|es]; [by repeat constructor|].
  rewrite pruned_entry_Directory. destruct (keep d) eqn:Hk; [|constructor].
  constructor; [|constructor]. cbn [fst snd] in *.
  destruct (prune_is_Directory es) as [es' Hes]. rewrite Hes in *. done.
Qed.

End Prune.

(** X10: the walk of a tree under the filter of [analyze_directory] is the walk
    of the tree without the subtrees of the directories the filter drops: of
    those whose own name is in [skip_dirs] or starts with a dot.  In what is
    left every directory below the root, at any depth, passes the filter. *)
Theorem os_walk_prune skip_dirs node :
  (forall top,
     os_walk (keep_dir skip_dirs) top node
     = os_walk (keep_dir skip_dirs) top (prune (keep_dir skip_dirs) node))
  /\ all_dirs_kept (keep_dir skip_dirs) (prune (keep_dir skip_dirs) node)
  /\ (forall d, keep_dir skip_dirs d = true <->
        (d ∉ skip_dirs) /\ startswith d "." = false).
Proof.
  split; [|split; [|apply keep_dir_true]].
  - revert node. apply (FsNode_nested_ind (fun node => forall top,
      os_walk (keep_dir skip_dirs) top node
      = os_walk (keep_dir skip_dirs) top (prune (keep_dir skip_dirs) node))).
    + done.
    + intros entries IH top.
      rewrite prune_entries, !os_walk_entries.
      rewrite dir_names_pruned, file_names_pruned, filter_idemp.
      f_equal. symmetry. by apply walks_pruned.
  - revert node. apply (FsNode_nested_ind (fun node =>
      all_dirs_kept (keep_dir skip_dirs) (prune (keep_dir skip_dirs) node))).
    + done.
    + intros entries IH. rewrite prune_entries.
      apply all_dirs_kept_Directory. by apply pruned_kept.
Qed.

Section NoOutput.
Variable json_loads : string -> option Json.

Lemma run_astgrep_no_output sys path pattern language :
  no_output sys -> _run_astgrep json_loads sys path pattern language = empty_list.
Proof.
  intros Hno. unfold _run_astgrep.
  specialize (Hno (astgrep_command path pattern language) astgrep_timeout).
  destruct (sys _ _) as [rc out| |]; [|done..].
  destruct Hno as [Hrc| ->].
  - apply Z.eqb_neq in Hrc. by rewrite Hrc.
  - by rewrite andb_false_r.
Qed.

Lemma records_of_patterns_no_output sys path language kind patterns deps :
  no_output sys ->
  records_of_patterns json_loads sys path language kind patterns deps = Ok deps.
Proof.
  intros Hno. induction patterns as [|p patterns IH]; [done|].
  cbn [records_of_patterns]. by rewrite run_astgrep_no_output.
Qed.

Lemma analyze_file_no_output sys path report :
  no_output sys -> analyze_file json_loads sys path report = (report, Ok ()).
Proof.
  intros Hno. unfold analyze_file, analyze_python_imports, analyze_typescript_imports.
  rewrite !records_of_patterns_no_output by done. cbn [mbind result_bind].
  rewrite !records_of_patterns_no_output by done. cbn [mbind result_bind].
  rewrite !records_of_patterns_no_output by done. cbn [mbind result_bind].
  rewrite !records_of_patterns_no_output by done.
  by repeat case_decide.
Qed.

Lemma analyze_files_no_output sys root files report :
  no_output sys -> analyze_files json_loads sys root files report = (report, Ok ()).
Proof.
  intros Hno. induction files as [|f files IH]; [done|].
  cbn [analyze_files]. case_decide; [|done]. by rewrite analyze_file_no_output.
Qed.

Lemma analyze_walk_no_output sys walk report :
  no_output sys -> analyze_walk json_loads sys walk report = (report, Ok ()).
Proof.
  intros Hno. induction walk as [|[[root dirs] files] walk IH]; [done|].
  cbn [analyze_walk]. by rewrite analyze_files_no_output.
Qed.

(** X9: when no command both exits with 0 and prints something (the tool
    is missing, times out or never matches), [analyze_directory] returns
    normally with the report it was given, whatever the tree holds. *)
Theorem no_output_empty_report sys fs root skip_dirs report :
  no_output sys ->
  analyze_directory json_loads sys fs root skip_dirs report = (report, Ok ()).
Proof.
  intros Hno. unfold analyze_directory.
  destruct (fs root); by apply analyze_walk_no_output.
Qed.
End NoOutput.

(** ** The sections of the text report *)


Section SortedAny.
Context {A : Type} (le : A -> A -> bool).
Hypothesis le_total : forall x y, le x y = true \/ le y x = true.

Lemma insert_by_perm_any x l : insert_by le x l ≡ₚ x :: l.
Proof.
  induction l as [|y l IH]; simpl; [done|].
  destruct (le x y); [done|]. rewrite IH. apply Permutation_swap.
Qed.

Lemma sorted_by_perm_any l : sorted_by le l ≡ₚ l.
Proof.
  induction l as [|x l IH]; simpl; [done|].
  by rewrite insert_by_perm_any, IH.
Qed.

Lemma insert_by_Sorted x l :
  Sorted (fun a b => le a b = true) l ->
  Sorted (fun a b => le a b = true) (insert_by le x l).
Proof.
  induction 1 as [|y l Hl IH Hy]; simpl; [by repeat constructor|].
  destruct (le x y) eqn:Hxy.
  - constructor; [by constructor | by constructor].
  - constructor; [done|].
    assert (Hyx : le y x = true) by (destruct (le_total x y); congruence).
    destruct l as [|z l]; simpl in *; [by constructor|].
    destruct (le x z); constructor; [done|]. by inversion Hy.
Qed.

Lemma sorted_by_Sorted l : Sorted (fun a b => le a b = true) (sorted_by le l).
Proof.
  induction l as [|x l IH]; simpl; [constructor | by apply insert_by_Sorted].
Qed.
End SortedAny.

Lemma external_packages_fold records acc :
  NoDup acc ->
  let pkgs := foldl (fun acc dep => if is_external dep then set_add (package dep) acc else acc)
                    acc records in
  NoDup pkgs
  /\ forall pkg, pkg ∈ pkgs <->
       pkg ∈ acc \/ exists dep, dep ∈ records /\ is_external dep = true /\ package dep = pkg.
Proof.
  revert acc. induction records as [|dep records IH]; intros acc Hnd; simpl.
  - split; [done|]. intros pkg. split; [by left|].
    intros [?|(dep & Hin & _)]; [done | by apply elem_of_nil in Hin].
  - destruct (is_external dep) eqn:Hext.
    + destruct (IH (set_add (package dep) acc)) as [H1 H2].
      { unfold set_add. case_decide; [done|].
        apply NoDup_app. split; [done|]. split; [|apply NoDup_singleton].
        intros x Hx Hx'. apply list_elem_of_singleton in Hx'. by subst. }
      split; [done|]. intros pkg. rewrite H2, elem_of_set_add. split.
      * intros [[?| ->]|(d & Hin & He & Hp)]; [by left | | right; exists d].
        -- right. exists dep. split; [by left | done].
        -- split; [by right | done].
      * intros [?|(d & [->|Hin]%elem_of_cons & He & Hp)]; [by left; left | |].
        -- left. by right.
        -- right. eauto.
    + destruct (IH acc Hnd) as [H1 H2]. split; [done|].
      intros pkg. rewrite H2. split.
      * intros [?|(d & Hin & He & Hp)]; [by left|]. right. exists d.
        split; [by right | done].
      * intros [?|(d & [->|Hin]%elem_of_cons & He & Hp)]; [by left | congruence |].
        right. eauto.
Qed.

(** X11: the external section lists each package of an external record
    once, in ascending order, and lists nothing else. *)
Theorem external_usage_packages (report : DependencyReport) :
  let pkgs := (external_usage report).*1 in
  NoDup pkgs
  /\ Sorted (fun a b => String.leb a b = true) pkgs
  /\ forall pkg, pkg ∈ pkgs <->
       exists dep, dep ∈ all_records report /\ is_external dep = true
                   /\ package dep = pkg.
Proof.
  unfold external_usage. rewrite <- list_fmap_compose.
  assert (Hid : forall l : list string,
            (fst ∘ (fun pkg => (pkg, usage_count report pkg))) <$> l = l).
  { intros l. induction l as [|x l IH]; [done|]. rewrite fmap_cons, IH. done. }
  rewrite Hid. simpl.
  destruct (external_packages_fold (all_records report) [] (NoDup_nil_2))
    as [Hnd Hmem].
  fold (external_packages report) in Hnd, Hmem.
  split; [by rewrite (sorted_by_perm_any String.leb)|].
  split; [apply sorted_by_Sorted, String.leb_total|].
  intros pkg. rewrite (sorted_by_perm_any String.leb), Hmem. split.
  - intros [H|H]; [by apply elem_of_nil in H | done].
  - by right.
Qed.

Lemma dict_get_dict_incr k k' d :
  dict_get k (dict_incr k' d) 0 = dict_get k d 0 + (if decide (k = k') then 1 else 0).
Proof.
  induction d as [|[k0 n] d IH]; simpl.
  - repeat case_decide; try congruence; lia.
  - destruct (decide (k' = k0)) as [->|Hne]; simpl.
    + repeat case_decide; try congruence; lia.
    + rewrite IH. repeat case_decide; try congruence; lia.
Qed.

Lemma keys_dict_incr k d :
  (dict_incr k d).*1 = if decide (k ∈ d.*1) then d.*1 else d.*1 ++ [k].
Proof.
  induction d as [|[k0 vs] d IH]; [done|].
  cbn [dict_incr]. destruct (decide (k = k0)) as [->|Hne]; rewrite !fmap_cons; simpl.
  - rewrite decide_True by (by left). done.
  - rewrite IH. destruct (decide (k ∈ d.*1)) as [Hin|Hnin].
    + rewrite decide_True by (by right). done.
    + rewrite decide_False; [done|]. rewrite elem_of_cons. tauto.
Qed.

Lemma dict_get_elem_of {A} (k : string) (v : A) d default :
  NoDup d.*1 -> (k, v) ∈ d -> dict_get k d default = v.
Proof.
  induction d as [|[k0 v0] d IH]; [by intros _ H%elem_of_nil|].
  rewrite fmap_cons. intros [Hk Hnd]%NoDup_cons [[= -> ->]|Hin]%elem_of_cons; simpl.
  - by rewrite decide_True.
  - rewrite decide_False; [by apply IH|]. intros ->. apply Hk.
    apply list_elem_of_fmap. by exists (k0, v).
Qed.

Lemma by_type_fold records acc :
  NoDup acc.*1 ->
  let d := foldl (fun acc dep => dict_incr (import_type_str (import_type dep)) acc)
                 acc records in
  NoDup d.*1
  /\ (forall k, dict_get k d 0
                = dict_get k acc 0
                  + Z.of_nat (length (filter
                       (fun dep => import_type_str (import_type dep) = k) records)))
  /\ (forall k, k ∈ d.*1 <->
        k ∈ acc.*1 \/ exists dep, dep ∈ records /\ import_type_str (import_type dep) = k).
Proof.
  revert acc. induction records as [|dep records IH]; intros acc Hnd; simpl.
  - split; [done|]. split; [intros k; lia|]. intros k. split; [by left|].
    intros [?|(d & Hin & _)]; [done | by apply elem_of_nil in Hin].
  - destruct (IH (dict_incr (import_type_str (import_type dep)) acc))
      as (H1 & H2 & H3).
    { rewrite keys_dict_incr. case_decide; [done|].
      apply NoDup_app. split; [done|]. split; [|apply NoDup_singleton].
      intros x Hx Hx'. apply list_elem_of_singleton in Hx'. by subst. }
    split; [done|]. split.
    + intros k. rewrite H2, dict_get_dict_incr, filter_cons.
      destruct (decide (k = import_type_str (import_type dep))) as [->|Hne].
      * rewrite decide_True by done. simpl. lia.
      * rewrite decide_False by congruence. lia.
    + intros k. rewrite H3, keys_dict_incr. split.
      * intros [Hk|(d & Hin & Hd)].
        -- case_decide; [by left|].
           apply elem_of_app in Hk as [?|Hk]; [by left|].
           apply list_elem_of_singleton in Hk as ->. right. exists dep.
           split; [by left | done].
        -- right. exists d. split; [by right | done].
      * intros [Hk|(d & [->|Hin]%elem_of_cons & Hd)].
        -- left. case_decide; [done | apply elem_of_app; by left].
        -- left. case_decide; [by subst|]. apply elem_of_app. right. subst. by left.
        -- right. eauto.
Qed.

(** X12: the import-type section has one line per import type that occurs
    among the records, in ascending order of its name, and the number on
    the line is the number of records of that type, which is at least 1. *)
Theorem by_type_lines_count_records (report : DependencyReport) :
  let lines := sorted_by (fun x y => String.leb x.1 y.1) (by_type report) in
  (forall k n, (k, n) ∈ lines ->
     n = Z.of_nat (length (filter (fun dep => import_type_str (import_type dep) = k)
                                  (all_records report)))
     /\ 0 < n)
  /\ (forall dep, dep ∈ all_records report ->
        import_type_str (import_type dep) ∈ lines.*1)
  /\ NoDup lines.*1
  /\ Sorted (fun x y => String.leb x.1 y.1 = true) lines.
Proof.
  intros lines.
  destruct (by_type_fold (all_records report) [] (NoDup_nil_2)) as (Hnd & Hget & Hkeys).
  fold (by_type report) in Hnd, Hget, Hkeys.
  assert (Hperm : lines ≡ₚ by_type report).
  { apply (sorted_by_perm_any (fun x y : string * Z => String.leb x.1 y.1)). }
  split; [|split; [|split]].
  - intros k n Hin. rewrite Hperm in Hin.
    pose proof (dict_get_elem_of k n _ 0 Hnd Hin) as Hv.
    rewrite Hget in Hv. simpl in Hv. split; [lia|].
    assert (k ∈ (by_type report).*1) as Hk.
    { apply list_elem_of_fmap. by exists (k, n). }
    apply Hkeys in Hk as [Hk|(dep & Hdep & Hd)]; [by apply elem_of_nil in Hk|].
    assert (dep ∈ filter (fun dep => import_type_str (import_type dep) = k)
                    (all_records report)) as Hf by (by apply list_elem_of_filter).
    destruct (filter _ _); [by apply elem_of_nil in Hf | simpl in Hv; lia].
  - intros dep Hdep. rewrite Hperm. apply Hkeys. right. eauto.
  - by rewrite Hperm.
  - apply (sorted_by_Sorted (fun x y : string * Z => String.leb x.1 y.1)).
    intros x y. apply String.leb_total.
Qed.

(** ** Analysing a file twice *)


Lemma dict_add_present k v g :
  v ∈ dict_get k g [] -> dict_add k v g = g.
Proof.
  induction g as [|[k0 vs] g IH]; simpl; [by intros H%elem_of_nil|].
  case_decide; [|intros Hin; by rewrite IH].
  intros Hin. unfold set_add. by rewrite decide_True.
Qed.

Lemma graph_foldl_add_dependency path deps report :
  dependency_graph (foldl (add_dependency path) report deps)
  = foldl (add_edge path) (dependency_graph report) deps.
Proof.
  revert report. induction deps as [|dep deps IH]; intros report; [done|].
  simpl. by rewrite IH.
Qed.

Lemma total_foldl_add_dependency path deps report :
  total_dependencies (foldl (add_dependency path) report deps)
  = total_dependencies report + Z.of_nat (length deps).
Proof.
  revert report. induction deps as [|dep deps IH]; intros report; simpl; [lia|].
  rewrite IH. simpl. lia.
Qed.

Lemma add_edge_mono path g dep k v :
  v ∈ dict_get k g [] -> v ∈ dict_get k (add_edge path g dep) [].
Proof.
  intros Hin. unfold add_edge. destruct (negb _); [|done].
  apply elem_of_dict_get_dict_add. by left.
Qed.

Lemma foldl_add_edge_mono path deps g k v :
  v ∈ dict_get k g [] -> v ∈ dict_get k (foldl (add_edge path) g deps) [].
Proof.
  revert g. induction deps as [|dep deps IH]; intros g Hin; [done|].
  simpl. by apply IH, add_edge_mono.
Qed.

Lemma foldl_add_edge_present path deps g :
  (forall dep, dep ∈ deps -> is_external dep = false ->
     package dep ∈ dict_get path g []) ->
  foldl (add_edge path) g deps = g.
Proof.
  induction deps as [|dep deps IH]; intros Hall; [done|].
  simpl. assert (add_edge path g dep = g) as ->.
  { unfold add_edge. destruct (is_external dep) eqn:He; [done|]. simpl.
    apply dict_add_present, Hall; [by left | done]. }
  apply IH. intros d Hd. apply Hall. by right.
Qed.

Lemma foldl_add_edge_covers path deps g dep :
  dep ∈ deps -> is_external dep = false ->
  package dep ∈ dict_get path (foldl (add_edge path) g deps) [].
Proof.
  revert g. induction deps as [|d deps IH]; intros g; [by intros H%elem_of_nil|].
  intros [->|Hin]%elem_of_cons Hint; simpl; [|by apply IH].
  apply foldl_add_edge_mono. unfold add_edge. rewrite Hint. simpl.
  apply elem_of_dict_get_dict_add. by right.
Qed.

Lemma length_all_records_foldl path deps report :
  length (all_records (foldl (add_dependency path) report deps))
  = (length (all_records report) + length deps)%nat.
Proof.
  revert report. induction deps as [|dep deps IH]; intros report; simpl; [lia|].
  rewrite IH. unfold all_records, add_dependency. simpl.
  rewrite length_concat_dict_append. lia.
Qed.

Section Again.
Variable json_loads : string -> option Json.

(** X13: analysing the same file again under the same system hands the
    same records to the loop again. After the first call the file has, after
    those it had, the records of the call, and after the second call it has
    them twice; the records of every other file are those from before; the
    total grows by the number of records of the call each time; and the
    second call leaves the graph as it was after the first. *)
Theorem analyze_file_again sys path report :
  let deps := records_of_call json_loads (sys, path) in
  let report1 := (analyze_file json_loads sys path report).1 in
  let report2 := (analyze_file json_loads sys path report1).1 in
  dependency_graph report2 = dependency_graph report1
  /\ dict_get path (dependencies_by_file report1) []
     = dict_get path (dependencies_by_file report) [] ++ deps
  /\ dict_get path (dependencies_by_file report2) []
     = dict_get path (dependencies_by_file report) [] ++ deps ++ deps
  /\ (forall other, other <> path ->
        dict_get other (dependencies_by_file report2) []
        = dict_get other (dependencies_by_file report) [])
  /\ total_dependencies report1
     = total_dependencies report + Z.of_nat (length deps)
  /\ total_dependencies report2
     = total_dependencies report + 2 * Z.of_nat (length deps)
  /\ length (all_records report2)
     = (length (all_records report) + 2 * length deps)%nat.
Proof.
  intros deps report1 report2. subst report1 report2.
  rewrite !analyze_file_records_of_call. fold deps.
  pose proof (records_of_call_built json_loads sys path) as Hbuilt. fold deps in Hbuilt.
  assert (Hown : forall src,
            filter (fun dep => file_path dep = src) deps
            = if decide (src = path) then deps else []).
  { intros src. clear -Hbuilt. induction Hbuilt as [|dep l [Hp _] _ IH].
    - by case_decide.
    - rewrite filter_cons, IH, Hp.
      destruct (decide (src = path)) as [->|Hne].
      + by rewrite decide_True.
      + rewrite decide_False by done. done. }
  split; [|split; [|split; [|split; [|split; [|split]]]]].
  - rewrite !graph_foldl_add_dependency.
    apply foldl_add_edge_present. intros dep Hdep Hint.
    by apply foldl_add_edge_covers.
  - by rewrite stored_foldl_add_dependency, Hown, decide_True.
  - rewrite !stored_foldl_add_dependency, Hown, decide_True by done.
    by rewrite <- app_assoc.
  - intros other Hne. rewrite !stored_foldl_add_dependency, Hown.
    rewrite decide_False by done. by rewrite !app_nil_r.
  - by rewrite total_foldl_add_dependency.
  - rewrite !total_foldl_add_dependency. lia.
  - rewrite !length_all_records_foldl. lia.
Qed.
End Again.

(** ** File names and suffixes *)


Lemma app_String a s t : String a s +:+ t = String a (s +:+ t).
Proof. done. Qed.

Lemma app_empty_r s : s +:+ "" = s.
Proof. induction s as [|a s IH]; [done|]. by rewrite app_String, IH. Qed.

Lemma app_assoc_str s t u : (s +:+ t) +:+ u = s +:+ (t +:+ u).
Proof. induction s as [|a s IH]; [done|]. by rewrite !app_String, IH. Qed.

Lemma length_app_str s t :
  String.length (s +:+ t) = (String.length s + String.length t)%nat.
Proof. induction s as [|a s IH]; [done|]. rewrite app_String. simpl. by rewrite IH. Qed.

Lemma name_from_no_sep acc s :
  has_char "/" s = false -> name_from acc s = acc +:+ s.
Proof.
  revert acc. induction s as [|a s IH]; intros acc; simpl.
  - by rewrite app_empty_r.
  - intros [Ha Hs]%orb_false_iff. rewrite Ha, IH by done.
    by rewrite app_assoc_str.
Qed.

Lemma name_from_dir acc dir n :
  has_char "/" n = false -> name_from acc (dir +:+ "/" +:+ n) = n.
Proof.
  intros Hn. revert acc. induction dir as [|a dir IH]; intros acc.
  - simpl. by rewrite name_from_no_sep.
  - rewrite app_String. simpl. destruct (Ascii.eqb a "/"); apply IH.
Qed.

Lemma rfind_app c s t i :
  rfind c t = Some i -> rfind c (s +:+ t) = Some (String.length s + i)%nat.
Proof.
  intros Ht. induction s as [|a s IH]; [done|].
  rewrite app_String. simpl. by rewrite IH.
Qed.

Lemma rfind_None c s : has_char c s = false -> rfind c s = None.
Proof.
  induction s as [|a s IH]; [done|]. simpl.
  intros [Ha Hs]%orb_false_iff. by rewrite IH, Ha.
Qed.

Lemma substring_all t : String.substring 0 (String.length t) t = t.
Proof. induction t as [|b t IH]; [done|]. simpl. by rewrite IH. Qed.

Lemma substring_app_r s t :
  String.substring (String.length s) (String.length t) (s +:+ t) = t.
Proof.
  induction s as [|a s IH]; [apply substring_all | exact IH].
Qed.

Lemma suffix_of_name n stem ext :
  name n = stem +:+ "." +:+ ext ->
  stem <> "" -> ext <> "" -> has_char "." ext = false ->
  suffix n = "." +:+ ext.
Proof.
  intros Hname Hstem Hext Hdot. unfold suffix. rewrite Hname.
  rewrite (rfind_app "." stem ("." +:+ ext) 0).
  2:{ simpl. by rewrite rfind_None. }
  rewrite Nat.add_0_r, !length_app_str.
  assert (0 < String.length stem)%nat by (destruct stem; [done | simpl; lia]).
  assert (0 < String.length ext)%nat by (destruct ext; [done | simpl; lia]).
  simpl String.length.
  assert (Hlt : (String.length stem <? String.length stem + (1 + String.length ext) - 1)%nat = true)
    by (apply Nat.ltb_lt; lia).
  assert (Hpos : (0 <? String.length stem)%nat = true) by (apply Nat.ltb_lt; lia).
  rewrite Hlt, Hpos. cbn [andb].
  assert (Hlen : (String.length stem + (1 + String.length ext) - String.length stem)%nat
                 = String.length ("." +:+ ext)).
  { change (String.length ("." +:+ ext)) with (S (String.length ext)). lia. }
  rewrite Hlen.
  apply substring_app_r.
Qed.

(** X14: a file name [stem.ext], alone or after a directory, has the
    suffix [.ext] when the stem is not empty and the extension is not
    empty and holds no dot; a name that begins with its only dot, such as
    [.py], has no suffix, and [analyze_file] leaves the report alone on
    such a file. *)
Theorem suffix_of_file_name json_loads sys report dir stem ext :
  has_char "/" stem = false -> has_char "/" ext = false ->
  has_char "." ext = false -> ext <> "" ->
  (stem <> "" ->
   suffix (stem +:+ "." +:+ ext) = "." +:+ ext
   /\ suffix (dir +:+ "/" +:+ stem +:+ "." +:+ ext) = "." +:+ ext)
  /\ suffix ("." +:+ ext) = ""
  /\ suffix (dir +:+ "/" +:+ "." +:+ ext) = ""
  /\ analyze_file json_loads sys ("." +:+ ext) report = (report, Ok ())
  /\ analyze_file json_loads sys (dir +:+ "/" +:+ "." +:+ ext) report
     = (report, Ok ()).
Proof.
  intros Hs1 Hs2 Hdot Hext.
  assert (Hsep : has_char "/" (stem +:+ "." +:+ ext) = false).
  { clear Hext. induction stem as [|a stem IH]; simpl in *; [done|].
    apply orb_false_iff in Hs1 as [-> Hs1]. by apply IH. }
  assert (Hhidden : forall n, name n = "." +:+ ext -> suffix n = "").
  { intros n Hn. unfold suffix. rewrite Hn. simpl. by rewrite rfind_None. }
  assert (H1 : suffix ("." +:+ ext) = "").
  { apply Hhidden. unfold name. rewrite name_from_no_sep; [done|]. done. }
  assert (H2 : suffix (dir +:+ "/" +:+ "." +:+ ext) = "").
  { apply Hhidden. unfold name. rewrite (name_from_dir "" dir ("." +:+ ext)); done. }
  split; [|split; [done | split; [done | split]]].
  - intros Hstem. split.
    + apply (suffix_of_name _ stem ext); try done.
      unfold name. by rewrite name_from_no_sep.
    + apply (suffix_of_name _ stem ext); try done.
      unfold name. by rewrite name_from_dir.
  - unfold analyze_file. by rewrite H1.
  - unfold analyze_file. by rewrite H2.
Qed.

(** ** The further theorems at concrete inputs *)

(** Two files that import each other, with room for three nested calls. *)
Lemma no_cycle_reported_iff_acyclic_witness :
  find_circular_dependencies_within 3 (with_graph [("A", ["B"]); ("B", ["A"])])
  = Ok (set_circular_dependencies (with_graph [("A", ["B"]); ("B", ["A"])])
          [["A"; "B"; "A"]])
  /\ (circular_dependencies
        (set_circular_dependencies (with_graph [("A", ["B"]); ("B", ["A"])])
           [["A"; "B"; "A"]]) = []
      <-> ~ has_cycle (dependency_graph (with_graph [("A", ["B"]); ("B", ["A"])]))).
Proof.
  split; [vm_compute; reflexivity|].
  apply (no_cycle_reported_iff_acyclic 3
           (with_graph [("A", ["B"]); ("B", ["A"])])
           (set_circular_dependencies (with_graph [("A", ["B"]); ("B", ["A"])])
              [["A"; "B"; "A"]])); [reflexivity | vm_compute; reflexivity].
Defined.

(** A machine without the tool, on the example tree: the walk reaches
    [app.py] and [src/util.ts], and the report stays as it was. *)
Lemma no_output_empty_report_witness :
  no_output missing_tool
  /\ os_walk (keep_dir default_skip_dirs) "proj" example_tree
     = [("proj", ["src"], ["app.py"]); ("proj/src", [], ["util.ts"])]
  /\ analyze_directory example_json_loads missing_tool example_fs "proj"
       default_skip_dirs example_report
     = (example_report, Ok ()).
Proof.
  split; [intros command timeout; exact I|].
  split; [vm_compute; reflexivity|].
  apply (no_output_empty_report example_json_loads missing_tool example_fs
           "proj" default_skip_dirs example_report).
  intros command timeout. exact I.
Defined.

(** The names [app.py], [src/app.py], [.py] and [src/.py]. *)
Lemma suffix_of_file_name_witness :
  ("app" <> "" ->
   suffix ("app" +:+ "." +:+ "py") = "." +:+ "py"
   /\ suffix ("src" +:+ "/" +:+ "app" +:+ "." +:+ "py") = "." +:+ "py")
  /\ suffix ("." +:+ "py") = ""
  /\ suffix ("src" +:+ "/" +:+ "." +:+ "py") = ""
  /\ analyze_file example_json_loads example_system ("." +:+ "py") example_report
     = (example_report, Ok ())
  /\ analyze_file example_json_loads example_system
       ("src" +:+ "/" +:+ "." +:+ "py") example_report
     = (example_report, Ok ()).
Proof.
  apply (suffix_of_file_name example_json_loads example_system example_report
           "src" "app" "py"); [reflexivity.. | discriminate].
Defined.
